(** * BinaryRTS: diff-file engine, selection fallback and filter conversion

    A shallow embedding of
      - [binaryrts/vcs/diff_file.py]   (class [DiffFileClient]),
      - [binaryrts/commands/select.py] (the selection runs [cpp._run_rts]
        and [syscalls]),
      - [binaryrts/commands/utils.py]  ([_convert_gtest_filter] and
        [_convert_ctest_filter]),
    together with the properties of the specification that are stated
    about them.

    Conventions of the embedding.
      - A Python [str] is a [string]; an [ascii] stands for the code point
        of the same number, so the strings covered are those over the
        code points 0..255.
      - Python integers are [Z]; list slices with a possibly negative
        bound are written out ([slice_to], [slice_from]).
      - A [dict] keyed by strings is a [gmap string _]; a [set] is a
        [gset]; the order in which Python iterates over a set is not
        specified, so [list(a_set)] takes a seed that picks the order.
      - Code that can raise returns a [result]. *)

From Stdlib Require Import ZArith Lia String Ascii.
From stdpp Require Import base option list gmap strings.

Local Open Scope Z_scope.

(* ===================================================================== *)
(** * Python strings and lists *)
(* ===================================================================== *)

Module PyStr.

(** [str.startswith(prefix)] *)
Definition startswith (s p : string) : bool := String.prefix p s.

(** [s[1:]] *)
Definition tail1 (s : string) : string :=
  match s with
  | EmptyString => EmptyString
  | String _ r => r
  end.

(** [needle in hay] *)
Fixpoint contains (needle hay : string) : bool :=
  String.prefix needle hay ||
  match hay with
  | EmptyString => false
  | String _ r => contains needle r
  end.

(** Line boundaries of [str.splitlines] among the code points 0..255:
    LF, VT, FF, CR, FS, GS, RS and NEL. *)
Definition is_linebreak (c : ascii) : bool :=
  match N_of_ascii c with
  | 10 | 11 | 12 | 13 | 28 | 29 | 30 | 133 => true
  | _ => false
  end%N.

(** Put a character in front of the first line of a list of lines. *)
Definition cons_first (c : ascii) (ls : list string) : list string :=
  match ls with
  | [] => [String c EmptyString]
  | l :: ls' => String c l :: ls'
  end.

(** [str.splitlines()]: no line for the empty rest after a final line
    boundary, CR LF is one boundary. *)
Fixpoint splitlines (s : string) : list string :=
  match s with
  | EmptyString => []
  | String c r =>
      if is_linebreak c then
        match c, r with
        | "013"%char, String "010"%char r' => EmptyString :: splitlines r'
        | _, _ => EmptyString :: splitlines r
        end
      else cons_first c (splitlines r)
  end.

(** [sep.join(parts)] *)
Definition join (sep : string) (parts : list string) : string :=
  String.concat sep parts.

(** Whitespace of [str.strip()] among the code points 0..255. *)
Definition is_space (c : ascii) : bool :=
  match N_of_ascii c with
  | 9 | 10 | 11 | 12 | 13 | 28 | 29 | 30 | 31 | 32 | 133 | 160 => true
  | _ => false
  end%N.

Fixpoint lstrip (s : string) : string :=
  match s with
  | EmptyString => EmptyString
  | String c r => if is_space c then lstrip r else s
  end.

Fixpoint rstrip (s : string) : string :=
  match s with
  | EmptyString => EmptyString
  | String c r =>
      match rstrip r with
      | EmptyString => if is_space c then EmptyString else String c EmptyString
      | r' => String c r'
      end
  end.

(** [str.strip()] *)
Definition strip (s : string) : string := rstrip (lstrip s).

(** [str.lower()] on the code points 0..255: A-Z, and the capital
    letters 192..222 except the multiplication sign 215. *)
Definition lower_char (c : ascii) : ascii :=
  let n := N_of_ascii c in
  if ((65 <=? n) && (n <=? 90))%N then ascii_of_N (n + 32)
  else if ((192 <=? n) && (n <=? 222) && negb (n =? 215))%N
       then ascii_of_N (n + 32)
       else c.

Fixpoint lower (s : string) : string :=
  match s with
  | EmptyString => EmptyString
  | String c r => String (lower_char c) (lower r)
  end.

(** [s.replace(a, b)] for one-character [a] and [b]. *)
Fixpoint replace_char (a b : ascii) (s : string) : string :=
  match s with
  | EmptyString => EmptyString
  | String c r =>
      String (if Ascii.eqb c a then b else c) (replace_char a b r)
  end.

(** [s.split(sep)] for a non-empty separator: the leftmost occurrences
    that do not overlap.  [skip] counts the characters of the separator
    found that are still to be passed. *)
Fixpoint split_go (sep : string) (skip : nat) (s : string) : list string :=
  match s with
  | EmptyString => [EmptyString]
  | String c r =>
      match skip with
      | S k => split_go sep k r
      | O =>
          if String.prefix sep s
          then EmptyString :: split_go sep (Nat.pred (String.length sep)) r
          else cons_first c (split_go sep 0 r)
      end
  end.

Definition split (sep s : string) : list string := split_go sep 0 s.

(** [lines[:i]] and [lines[i:]] for an integer [i]: a negative bound
    counts from the end, and every bound is clipped to the list. *)
Definition slice_bound {A} (l : list A) (i : Z) : nat :=
  if i <? 0 then Z.to_nat (Z.max 0 (Z.of_nat (length l) + i))
  else Z.to_nat i.

Definition slice_to {A} (l : list A) (i : Z) : list A :=
  take (slice_bound l i) l.

Definition slice_from {A} (l : list A) (i : Z) : list A :=
  drop (slice_bound l i) l.

(** Decimal digits, [\d] among the code points 0..255. *)
Definition is_digit (c : ascii) : bool :=
  let n := N_of_ascii c in ((48 <=? n) && (n <=? 57))%N.

Definition digit_val (c : ascii) : Z := Z.of_N (N_of_ascii c) - 48.

(** The longest run of digits in front of [s], and the rest. *)
Fixpoint span_digits (s : string) : string * string :=
  match s with
  | EmptyString => (EmptyString, EmptyString)
  | String c r =>
      if is_digit c
      then let '(d, rest) := span_digits r in (String c d, rest)
      else (EmptyString, s)
  end.

(** [int(digits)] *)
Fixpoint int_acc (acc : Z) (s : string) : Z :=
  match s with
  | EmptyString => acc
  | String c r => int_acc (10 * acc + digit_val c) r
  end.

Definition int (s : string) : Z := int_acc 0 s.

(** Remove a literal prefix, if it is there. *)
Fixpoint strip_prefix (p s : string) : option string :=
  match p, s with
  | EmptyString, _ => Some s
  | String a p', String b s' =>
      if Ascii.eqb a b then strip_prefix p' s' else None
  | String _ _, EmptyString => None
  end.

End PyStr.

Import PyStr.

(** The line feed, as a one-character string. *)
Definition LF : string := String "010"%char EmptyString.

(* ===================================================================== *)
(** * Results of code that can raise *)
(* ===================================================================== *)

(** The exceptions the modelled code raises itself or lets through; all of
    them are instances of Python's [Exception]. *)
Inductive exn : Type :=
  | ValueError (msg : string)
  | FileNotFoundError (path : string)
  | OtherException (msg : string).

Inductive result (A : Type) : Type :=
  | Ok (a : A)
  | Raise (e : exn).
Arguments Ok {A} a.
Arguments Raise {A} e.

#[export] Instance result_bind : MBind result :=
  λ A B (k : A → result B) (r : result A),
    match r with
    | Ok a => k a
    | Raise e => Raise e
    end.

#[export] Instance result_ret : MRet result := λ A a, Ok a.

(* ===================================================================== *)
(** * Hunks: parsing and application ([diff_file.py]) *)
(* ===================================================================== *)

(** The dictionaries built by [_parse_hunks]. *)
Record Hunk : Type := mkHunk {
  old_start : Z;
  old_count : Z;
  new_start : Z;
  new_count : Z;
  lines : list string
}.

Definition with_lines (h : Hunk) (ls : list string) : Hunk :=
  mkHunk (old_start h) (old_count h) (new_start h) (new_count h) ls.

(** An optional [,(\d+)] group: the digits if the group is there. *)
Definition opt_count (s : string) : option (option string * string) :=
  match s with
  | String ","%char r =>
      match span_digits r with
      | (EmptyString, _) => None
      | (d, rest) => Some (Some d, rest)
      end
  | _ => Some (None, s)
  end.

(** [int(group or 1)] *)
Definition count_or_1 (g : option string) : Z :=
  match g with
  | Some d => int d
  | None => 1
  end.

(** [re.match(hunk_pattern, line)] with
    [hunk_pattern = ^@@ -(\d+)(?:,(\d+))? \+(\d+)(?:,(\d+))? @@]:
    the four numbers of the header, the counts already defaulted. *)
Definition hunk_match (line : string) : option (Z * Z * Z * Z) :=
  r1 ← strip_prefix "@@ -" line;
  match span_digits r1 with
  | (EmptyString, _) => None
  | (os, r2) =>
      '(oc, r3) ← opt_count r2;
      r4 ← strip_prefix " +" r3;
      match span_digits r4 with
      | (EmptyString, _) => None
      | (ns, r5) =>
          '(nc, r6) ← opt_count r5;
          _ ← strip_prefix " @@" r6;
          Some (int os, count_or_1 oc, int ns, count_or_1 nc)
      end
  end.

(** [line.startswith(("+", "-", " ", "\\"))] *)
Definition is_hunk_line (line : string) : bool :=
  startswith line "+" || startswith line "-" ||
  startswith line " " || startswith line "\".

(** One turn of the loop of [_parse_hunks]; the state is [hunks] and
    [current_hunk]. *)
Definition parse_hunks_step (st : list Hunk * option Hunk) (line : string)
  : list Hunk * option Hunk :=
  let '(hunks, current_hunk) := st in
  match hunk_match line with
  | Some (os, oc, ns, nc) =>
      (match current_hunk with
       | Some h => hunks ++ [h]
       | None => hunks
       end,
       Some (mkHunk os oc ns nc []))
  | None =>
      match current_hunk with
      | Some h =>
          if is_hunk_line line
          then (hunks, Some (with_lines h (lines h ++ [line])))
          else (hunks, Some h)
      | None => (hunks, None)
      end
  end.

Definition parse_hunks_finish (st : list Hunk * option Hunk) : list Hunk :=
  match st with
  | (hunks, Some h) => hunks ++ [h]
  | (hunks, None) => hunks
  end.

(** [_parse_hunks] on the lines of a diff section. *)
Definition parse_hunks_lines (ls : list string) : list Hunk :=
  parse_hunks_finish (foldl parse_hunks_step ([], None) ls).

Definition _parse_hunks (diff_section : string) : list Hunk :=
  parse_hunks_lines (splitlines diff_section).

(** The loop that builds [new_section] in [_forward_apply_hunk]. *)
Definition forward_section_step (acc : list string) (hunk_line : string)
  : list string :=
  if startswith hunk_line "+" then acc ++ [tail1 hunk_line]
  else if startswith hunk_line "-" then acc
  else if startswith hunk_line " " then acc ++ [tail1 hunk_line]
  else acc.

Definition new_section (h : Hunk) : list string :=
  foldl forward_section_step [] (lines h).

Definition _forward_apply_hunk (ls : list string) (h : Hunk) : list string :=
  let old_start_idx := old_start h - 1 in
  let old_end_idx := old_start_idx + old_count h in
  slice_to ls old_start_idx ++ new_section h ++ slice_from ls old_end_idx.

(** The loop that builds [old_section] in [_reverse_apply_hunk]. *)
Definition reverse_section_step (acc : list string) (hunk_line : string)
  : list string :=
  if startswith hunk_line "-" then acc ++ [tail1 hunk_line]
  else if startswith hunk_line "+" then acc
  else if startswith hunk_line " " then acc ++ [tail1 hunk_line]
  else acc.

Definition old_section (h : Hunk) : list string :=
  foldl reverse_section_step [] (lines h).

Definition _reverse_apply_hunk (ls : list string) (h : Hunk) : list string :=
  let new_start_idx := new_start h - 1 in
  let new_end_idx := new_start_idx + new_count h in
  slice_to ls new_start_idx ++ old_section h ++ slice_from ls new_end_idx.

(** [for hunk in reversed(hunks): current_lines = apply(current_lines, hunk)] *)
Definition forward_apply_hunks (hunks : list Hunk) (current_lines : list string)
  : list string :=
  foldl _forward_apply_hunk current_lines (reverse hunks).

Definition reverse_apply_hunks (hunks : list Hunk) (current_lines : list string)
  : list string :=
  foldl _reverse_apply_hunk current_lines (reverse hunks).

(* ===================================================================== *)
(** * Paths, change lists and the disk *)
(* ===================================================================== *)

(** [pathlib.PurePosixPath]: the anchor (empty, one slash or two) and the
    parts after it; empty parts and single dots are dropped on the way in. *)
Record Path : Type := mkPath {
  anchor : string;
  parts : list string
}.

Definition path_anchor (s : string) : string :=
  if startswith s "//" && negb (startswith s "///") then "//"
  else if startswith s "/" then "/"
  else "".

(** [Path(s)] *)
Definition Path_of (s : string) : Path :=
  mkPath (path_anchor s)
         (filter (λ p : string, p ≠ "" ∧ p ≠ ".") (split "/" s)).

(** [str(path)] *)
Definition path_str (p : Path) : string :=
  match anchor p, parts p with
  | EmptyString, [] => "."
  | a, ps => a +:+ join "/" ps
  end.

(** [path.is_absolute()] *)
Definition is_absolute (p : Path) : bool :=
  negb (String.eqb (anchor p) "").

(** The rest of [l] after the prefix [pre], if [pre] is a prefix. *)
Fixpoint drop_prefix (pre l : list string) : option (list string) :=
  match pre, l with
  | [], _ => Some l
  | a :: pre', b :: l' => if String.eqb a b then drop_prefix pre' l' else None
  | _ :: _, [] => None
  end.

(** [path.relative_to(other)] *)
Definition relative_to (p other : Path) : result Path :=
  if String.eqb (anchor p) (anchor other) then
    match drop_prefix (parts other) (parts p) with
    | Some rest => Ok (mkPath "" rest)
    | None => Raise (ValueError "path is not in the subpath of root")
    end
  else Raise (ValueError "path is not in the subpath of root").

(** [base / p] *)
Definition joinpath (base p : Path) : Path :=
  if is_absolute p then p
  else mkPath (anchor base) (parts base ++ parts p).

(** Modelled from the spec: the enumeration [ChangelistItemAction] of
    [binaryrts/vcs/base.py], which is {ADDED, MODIFIED, DELETED}. *)
Inductive ChangelistItemAction : Type := ADDED | MODIFIED | DELETED.

(** Modelled from the spec: the class [ChangelistItem] of
    [binaryrts/vcs/base.py], a file path and an action, equal and hashed
    by the pair of them. *)
Record ChangelistItem : Type := mkItem {
  filepath : Path;
  action : ChangelistItemAction
}.

(** Modelled from the spec: the class [Changelist] of
    [binaryrts/vcs/base.py], which holds the items. *)
Record Changelist : Type := mkChangelist {
  items : list ChangelistItem
}.

#[export] Instance Path_eq_dec : EqDecision Path.
Proof. solve_decision. Defined.

#[export] Instance Action_eq_dec : EqDecision ChangelistItemAction.
Proof. solve_decision. Defined.

#[export] Instance Item_eq_dec : EqDecision ChangelistItem.
Proof. solve_decision. Defined.

#[export] Instance Path_countable : Countable Path.
Proof.
  refine (inj_countable' (λ p, (anchor p, parts p))
                         (λ '(a, ps), mkPath a ps) _).
  by intros [].
Defined.

#[export] Instance Action_countable : Countable ChangelistItemAction.
Proof.
  refine (inj_countable'
            (λ a, match a with ADDED => 0%nat | MODIFIED => 1%nat | DELETED => 2%nat end)
            (λ n, match n with 0%nat => ADDED | 1%nat => MODIFIED | _ => DELETED end) _).
  by intros [].
Defined.

#[export] Instance Item_countable : Countable ChangelistItem.
Proof.
  refine (inj_countable' (λ i, (filepath i, action i))
                         (λ '(p, a), mkItem p a) _).
  by intros [].
Defined.

(** [list(a_set)]: Python fixes no order for the elements of a set.  The
    seed gives, for each element in turn, the position at which it is put
    among the elements placed before it, so that every order can be
    chosen. *)
Definition insert_at {A} (n : nat) (x : A) (l : list A) : list A :=
  take n l ++ x :: drop n l.

Fixpoint set_order {A} (seed : list nat) (l : list A) : list A :=
  match l with
  | [] => []
  | x :: l' =>
      let done := set_order (tail seed) l' in
      insert_at (hd 0%nat seed `mod` S (length done)) x done
  end.

(** The files of the working copy and the diff file, by the text of their
    path.  Only regular files that can be read are covered. *)
Record World : Type := mkWorld {
  disk : gmap string string
}.

(** [path.exists()] and [path.read_text(...)] *)
Definition read_text (w : World) (p : Path) : option string :=
  disk w !! path_str p.

(* ===================================================================== *)
(** * The diff-file client ([diff_file.py], class [DiffFileClient]) *)
(* ===================================================================== *)

(** The fields of an instance. *)
Record DiffFileClient : Type := mkClient {
  root : Path;
  diff_file : option Path;
  repo_state : string;
  _diff_content : option string;
  _changelist : option Changelist;
  _file_diffs : gmap string string
}.

(** [DiffFileClient.__init__] *)
Definition __init__ (root : Path) (diff_file : option Path)
    (repo_state : string) (diff_content : option string)
  : result DiffFileClient :=
  match diff_file, diff_content with
  | None, None =>
      Raise (ValueError "Either diff_file or diff_content must be provided")
  | _, _ => Ok (mkClient root diff_file repo_state diff_content None ∅)
  end.

Definition set_diff_content (c : DiffFileClient) (text : string)
  : DiffFileClient :=
  mkClient (root c) (diff_file c) (repo_state c) (Some text)
           (_changelist c) (_file_diffs c).

Definition set_parsed (c : DiffFileClient) (cl : Changelist)
    (fd : gmap string string) : DiffFileClient :=
  mkClient (root c) (diff_file c) (repo_state c) (_diff_content c)
           (Some cl) fd.

(** The property [diff_content]: the text, read and kept on first use. *)
Definition diff_content (w : World) (c : DiffFileClient)
  : result (string * DiffFileClient) :=
  match _diff_content c with
  | Some text => Ok (text, c)
  | None =>
      match diff_file c with
      | None => Raise (ValueError "No diff file or content available")
      | Some f =>
          match read_text w f with
          | Some text => Ok (text, set_diff_content c text)
          | None => Raise (FileNotFoundError (path_str f))
          end
      end
  end.

(** The text before the last occurrence of [needle] in [s]. *)
Fixpoint before_last (needle s : string) : option string :=
  match s with
  | EmptyString => if String.prefix needle s then Some EmptyString else None
  | String c r =>
      match before_last needle r with
      | Some p => Some (String c p)
      | None => if String.prefix needle s then Some EmptyString else None
      end
  end.

(** [re.search(diff_pattern, line)] on a line without line feed (as the
    lines of [splitlines] are).  The pattern is anchored at both ends: the
    text [diff --git a/], the group [filepath] (any characters, greedy),
    the text [ b/], any characters.  The group therefore ends at the last
    [ b/] of the line. *)
Definition diff_match (line : string) : option string :=
  rest ← strip_prefix "diff --git a/" line;
  before_last " b/" rest.

(** The action read off the line after a header; [None] when the header is
    the last line. *)
Definition action_after (next_line : option string) : ChangelistItemAction :=
  match next_line with
  | Some l =>
      if contains "new file mode" l then ADDED
      else if contains "deleted file mode" l then DELETED
      else MODIFIED
  | None => MODIFIED
  end.

(** The variables of the loop of [get_diff]; [file_diffs] is the
    dictionary [self._file_diffs]. *)
Record Scan : Type := mkScan {
  scan_items : gset ChangelistItem;
  current_file : option string;
  current_diff_lines : list string;
  file_diffs : gmap string string
}.

(** [self._file_diffs[current_file] = "\n".join(current_diff_lines)], when
    there is a current file. *)
Definition save_file_diff (sc : Scan) : gmap string string :=
  match current_file sc with
  | Some f => <[f := join LF (current_diff_lines sc)]> (file_diffs sc)
  | None => file_diffs sc
  end.

(** One turn of [for idx, line in enumerate(lines)]. *)
Definition get_diff_step (all_lines : list string) (sc : Scan)
    (il : nat * string) : Scan :=
  let '(idx, line) := il in
  if startswith line "diff --git" then
    let fd := save_file_diff sc in
    match diff_match line with
    | Some fp =>
        let act := action_after (all_lines !! S idx) in
        mkScan ({[ mkItem (Path_of fp) act ]} ∪ scan_items sc)
               (Some fp) [line] fd
    | None =>
        mkScan (scan_items sc) (current_file sc) (current_diff_lines sc) fd
    end
  else
    match current_file sc with
    | Some _ =>
        mkScan (scan_items sc) (current_file sc)
               (current_diff_lines sc ++ [line]) (file_diffs sc)
    | None => sc
    end.

(** [enumerate(lines)] *)
Definition enumerate {A} (l : list A) : list (nat * A) :=
  imap (λ idx x, (idx, x)) l.

Definition get_diff_scan (fd0 : gmap string string) (all_lines : list string)
  : Scan :=
  foldl (get_diff_step all_lines) (mkScan ∅ None [] fd0) (enumerate all_lines).

(** [get_diff]: the change list, parsed once and kept. *)
Definition get_diff (w : World) (seed : list nat) (c : DiffFileClient)
  : result (Changelist * DiffFileClient) :=
  match _changelist c with
  | Some cl => Ok (cl, c)
  | None =>
      '(text, c1) ← diff_content w c;
      let sc := get_diff_scan (_file_diffs c1) (splitlines text) in
      let cl := mkChangelist (set_order seed (elements (scan_items sc))) in
      Ok (cl, set_parsed c1 cl (save_file_diff sc))
  end.

(** [_read_file_from_disk] *)
Definition _read_file_from_disk (w : World) (c : DiffFileClient) (p : Path)
  : string :=
  match read_text w (joinpath (root c) p) with
  | Some text => text
  | None => ""
  end.

(** The search [for ci in self._changelist.items: ... break]. *)
Fixpoint find_item (its : list ChangelistItem) (fp : string)
  : option ChangelistItem :=
  match its with
  | [] => None
  | ci :: its' =>
      if String.eqb (replace_char "\" "/" (path_str (filepath ci))) fp
      then Some ci
      else find_item its' fp
  end.

(** One turn of the loop of [_reconstruct_added_file]; the state is
    [lines] and [in_hunk]. *)
Definition added_step (st : list string * bool) (line : string)
  : list string * bool :=
  let '(acc, in_hunk) := st in
  if startswith line "@@" then (acc, true)
  else if in_hunk then
    if startswith line "+" then (acc ++ [tail1 line], in_hunk)
    else if startswith line "-" then (acc, in_hunk)
    else if startswith line " " then (acc ++ [tail1 line], in_hunk)
    else (acc, in_hunk)
  else (acc, in_hunk).

Definition _reconstruct_added_file (c : DiffFileClient) (fp : string)
  : string :=
  match _file_diffs c !! fp with
  | None => ""
  | Some diff_section =>
      join LF (fst (foldl added_step ([], false) (splitlines diff_section)))
  end.

(** One turn of the loop of [_reconstruct_deleted_file]. *)
Definition deleted_step (st : list string * bool) (line : string)
  : list string * bool :=
  let '(acc, in_hunk) := st in
  if startswith line "@@" then (acc, true)
  else if in_hunk then
    if startswith line "-" then (acc ++ [tail1 line], in_hunk)
    else if startswith line "+" then (acc, in_hunk)
    else if startswith line " " then (acc ++ [tail1 line], in_hunk)
    else (acc, in_hunk)
  else (acc, in_hunk).

Definition _reconstruct_deleted_file (c : DiffFileClient) (fp : string)
  : string :=
  match _file_diffs c !! fp with
  | None => ""
  | Some diff_section =>
      join LF (fst (foldl deleted_step ([], false) (splitlines diff_section)))
  end.

Definition _forward_apply_diff (c : DiffFileClient) (fp : string)
    (current_content : string) : string :=
  match _file_diffs c !! fp with
  | None => current_content
  | Some diff_section =>
      join LF (forward_apply_hunks (_parse_hunks diff_section)
                                   (splitlines current_content))
  end.

Definition _reverse_apply_diff (c : DiffFileClient) (fp : string)
    (current_content : string) : string :=
  match _file_diffs c !! fp with
  | None => current_content
  | Some diff_section =>
      join LF (reverse_apply_hunks (_parse_hunks diff_section)
                                   (splitlines current_content))
  end.

(** [_get_new_file_content] *)
Definition _get_new_file_content (w : World) (seed : list nat)
    (c : DiffFileClient) (fp : string) : result (string * DiffFileClient) :=
  '(cl, c1) ← get_diff w seed c;
  match find_item (items cl) fp with
  | None => Ok (_read_file_from_disk w c1 (Path_of fp), c1)
  | Some item =>
      match action item with
      | DELETED => Ok ("", c1)
      | ADDED => Ok (_reconstruct_added_file c1 fp, c1)
      | MODIFIED =>
          let current_content := _read_file_from_disk w c1 (Path_of fp) in
          if String.eqb current_content "" then Ok ("", c1)
          else Ok (_forward_apply_diff c1 fp current_content, c1)
      end
  end.

(** [_get_old_file_content] *)
Definition _get_old_file_content (w : World) (seed : list nat)
    (c : DiffFileClient) (fp : string) : result (string * DiffFileClient) :=
  '(cl, c1) ← get_diff w seed c;
  match find_item (items cl) fp with
  | None =>
      match read_text w (joinpath (root c1) (Path_of fp)) with
      | Some text => Ok (text, c1)
      | None => Ok ("", c1)
      end
  | Some item =>
      match action item with
      | ADDED => Ok ("", c1)
      | DELETED => Ok (_reconstruct_deleted_file c1 fp, c1)
      | MODIFIED =>
          match read_text w (joinpath (root c1) (Path_of fp)) with
          | None => Ok ("", c1)
          | Some current_content =>
              Ok (_reverse_apply_diff c1 fp current_content, c1)
          end
      end
  end.

(** [revision.lower() in ("head", "new", "to", "")] *)
Definition is_new_revision (revision : string) : bool :=
  bool_decide (lower revision ∈ ["head"; "new"; "to"; ""]).

(** [get_file_content_at_revision] *)
Definition get_file_content_at_revision (w : World) (seed : list nat)
    (c : DiffFileClient) (revision : string) (fp : Path)
  : result (string * DiffFileClient) :=
  fp1 ← (if is_absolute fp then relative_to fp (root c) else Ok fp);
  let filepath_str := replace_char "\" "/" (path_str fp1) in
  if String.eqb (repo_state c) "new" then
    if is_new_revision revision
    then Ok (_read_file_from_disk w c fp1, c)
    else _get_old_file_content w seed c filepath_str
  else
    if is_new_revision revision
    then _get_new_file_content w seed c filepath_str
    else Ok (_read_file_from_disk w c fp1, c).

(* ===================================================================== *)
(** * The selection runs ([select.py]) *)
(* ===================================================================== *)

Definition INCLUDED_TESTS_FILE : string := "included.txt".
Definition EXCLUDED_TESTS_FILE : string := "excluded.txt".
Definition SELECTION_CAUSES_FILE : string := "selection-causes.txt".
Definition RTS_START_EVENT : string := "START_BINARY_RTS_SELECTION".
Definition RTS_END_EVENT : string := "END_BINARY_RTS_SELECTION".

(** What a file of the output directory holds: text, or the JSON document
    written by [json.dump] for a dictionary from test identifiers to lists
    of cause names. *)
Inductive FileContent : Type :=
  | Text (s : string)
  | Json (d : list (string * list string)).

(** The output directory of a run: its files by name, and the events
    appended to its event log.  The directory exists and can be written. *)
Record OutDir : Type := mkOutDir {
  files : gmap string FileContent;
  events : list string
}.

(** Code that writes to the output directory and can raise: the directory
    as it is left, and the value or the exception. *)
Definition IO (A : Type) : Type := OutDir → OutDir * result A.

Definition io_ret {A} (a : A) : IO A := λ o, (o, Ok a).

Definition io_bind {A B} (m : IO A) (k : A → IO B) : IO B :=
  λ o, match m o with
       | (o', Ok a) => k a o'
       | (o', Raise e) => (o', Raise e)
       end.

Notation "m >>= k" := (io_bind m k) (at level 60, right associativity).
Notation "m >> n" := (io_bind m (λ _, n)) (at level 60, right associativity).

(** A call that does not touch the output directory. *)
Definition lift {A} (r : result A) : IO A := λ o, (o, r).

(** [try: body except Exception as e: handler(e)]; every [exn] is an
    instance of [Exception]. *)
Definition try_except {A} (body : IO A) (handler : exn → IO A) : IO A :=
  λ o, match body o with
       | (o', Ok a) => (o', Ok a)
       | (o', Raise e) => handler e o'
       end.

(** [(output_dir / name).write_text(text)] *)
Definition write_text (name text : string) : IO unit :=
  λ o, (mkOutDir (<[name := Text text]> (files o)) (events o), Ok tt).

(** [with (output_dir / name).open("w+") as fp: json.dump(d, fp)] *)
Definition json_dump (name : string) (d : list (string * list string))
  : IO unit :=
  λ o, (mkOutDir (<[name := Json d]> (files o)) (events o), Ok tt).

(** [LogEvent(name=...).append(log_file=output_dir / EVENT_LOG)] *)
Definition log_event (name : string) : IO unit :=
  λ o, (mkOutDir (files o) (events o ++ [name]), Ok tt).

(** The result of [RTSAlgo.select_tests]: included tests, excluded tests
    and the causes. *)
Definition Selection : Type :=
  gset string * gset string * list (string * list string).

Record RTSAlgo : Type := mkRTSAlgo {
  select_tests : string → string → result Selection
}.

Record RTSConfiguration : Type := mkRTSConfiguration {
  name : string;
  file_level : bool;
  scope_analysis : bool;
  overload_analysis : bool;
  virtual_analysis : bool;
  non_functional_analysis : bool;
  non_functional_retest_all : bool;
  non_functional_analysis_depth : Z
}.

(** The fields of [SelectCommonOptions] the runs read themselves. *)
Record SelectCommonOptions : Type := mkSelectCommonOptions {
  from_revision : string;
  to_revision : string;
  simple_output : bool
}.

Section SelectionRuns.

(** The value of [SelectionCause.SELECTION_FAILURE], of
    [binaryrts/rts/base.py]. *)
Variable SELECTION_FAILURE : string.

(** [format_test_list], imported from [binaryrts.commands.utils]. *)
Variable format_test_list : list string → bool → string.

(** The constructors of the algorithms, of [binaryrts/rts/cpp.py] and
    [binaryrts/rts/syscall.py], applied to the options of the command. *)
Variable CppFileLevelRTS : RTSConfiguration → result RTSAlgo.
Variable CppFunctionLevelRTS : RTSConfiguration → result RTSAlgo.
Variable SyscallFileLevelRTS : result RTSAlgo.

(** The orders of [list(included_tests)] and [list(excluded_tests)]. *)
Variable seed_included : list nat.
Variable seed_excluded : list nat.

(** [config.name or 'default'] *)
Definition name_or_default (config : RTSConfiguration) : string :=
  if String.eqb (name config) "" then "default" else name config.

(** The three writes of a selection. *)
Definition write_selection (opts : SelectCommonOptions) (sel : Selection)
  : IO unit :=
  let '(included_tests, excluded_tests, selection_causes) := sel in
  write_text INCLUDED_TESTS_FILE
    (format_test_list (set_order seed_included (elements included_tests))
                      (simple_output opts)) >>
  write_text EXCLUDED_TESTS_FILE
    (format_test_list (set_order seed_excluded (elements excluded_tests))
                      (simple_output opts)) >>
  json_dump SELECTION_CAUSES_FILE selection_causes.

(** The handler of both runs. *)
Definition retest_all_fallback (e : exn) : IO unit :=
  write_text INCLUDED_TESTS_FILE ("*" +:+ LF) >>
  write_text EXCLUDED_TESTS_FILE "" >>
  json_dump SELECTION_CAUSES_FILE [("*", [SELECTION_FAILURE])].

(** The [try] block of [_run_rts]. *)
Definition _run_rts_body (opts : SelectCommonOptions)
    (config : RTSConfiguration) : IO unit :=
  lift (if file_level config
        then CppFileLevelRTS config
        else CppFunctionLevelRTS config) >>= λ rts_algo,
  lift (select_tests rts_algo (from_revision opts) (to_revision opts))
    >>= λ sel,
  write_selection opts sel.

(** [_run_rts] of the command [cpp], on the output directory of the
    configuration. *)
Definition _run_rts (opts : SelectCommonOptions) (config : RTSConfiguration)
  : IO unit :=
  log_event (RTS_START_EVENT +:+ "_" +:+ name_or_default config) >>
  try_except (_run_rts_body opts config) retest_all_fallback >>
  log_event (RTS_END_EVENT +:+ "_" +:+ name_or_default config).

(** The [try] block of [syscalls]. *)
Definition syscalls_body (opts : SelectCommonOptions) (rts_algo : RTSAlgo)
  : IO unit :=
  lift (select_tests rts_algo (from_revision opts) (to_revision opts))
    >>= λ sel,
  write_selection opts sel >>
  log_event (RTS_END_EVENT +:+ "_syscall").

(** The command [syscalls], after its traces are loaded. *)
Definition syscalls (opts : SelectCommonOptions) : IO unit :=
  log_event (RTS_START_EVENT +:+ "_syscall") >>
  lift SyscallFileLevelRTS >>= λ rts_algo,
  try_except (syscalls_body opts rts_algo) retest_all_fallback.

End SelectionRuns.

(** Reading a text file in text mode: CR LF and CR become LF. *)
Fixpoint universal_newlines (s : string) : string :=
  match s with
  | EmptyString => EmptyString
  | String c r =>
      match c, r with
      | "013"%char, String "010"%char r' => String "010"%char (universal_newlines r')
      | "013"%char, _ => String "010"%char (universal_newlines r)
      | _, _ => String c (universal_newlines r)
      end
  end.

(** The test identifiers of an [included.txt] or [excluded.txt], read the
    way the command [merge] of [utils.py] reads them:
    [for line in fp: test_id = line.strip(); if len(test_id) > 0: ...]. *)
Definition read_test_ids (content : string) : list string :=
  filter (λ t : string, t ≠ "")
         (strip <$> split LF (universal_newlines content)).

(* ===================================================================== *)
(** * Filter conversion ([utils.py]) *)
(* ===================================================================== *)

(** One turn of the loop of [_convert_gtest_filter]. *)
Definition gtest_step (filters : list string) (line : string) : list string :=
  let line := strip line in
  if String.eqb line "" then filters
  else
    match split "!!!" line with
    | _ :: test_suite :: test_case :: _ =>
        filters ++ [test_suite +:+ "." +:+ test_case]
    | [_; test_suite] => filters ++ [test_suite +:+ ".*"]
    | _ => filters
    end.

Definition _convert_gtest_filter (lines : list string) : string :=
  join ":" (foldl gtest_step [] lines).

(** The longest run of characters other than [!] in front of [s], and the
    rest. *)
Fixpoint span_not_bang (s : string) : string * string :=
  match s with
  | EmptyString => (EmptyString, EmptyString)
  | String c r =>
      if Ascii.eqb c "!"
      then (EmptyString, s)
      else let '(n, rest) := span_not_bang r in (String c n, rest)
  end.

(** [re.match] of a line against the pattern of [_convert_ctest_filter]:
    a star, three [!], a non-empty run of characters other than [!] (the
    group), three [!], a star. *)
Definition ctest_match (line : string) : option string :=
  r1 ← strip_prefix "*!!!" line;
  match span_not_bang r1 with
  | (EmptyString, _) => None
  | (n, r2) => _ ← strip_prefix "!!!*" r2; Some n
  end.

(** One turn of the loop of [_convert_ctest_filter]. *)
Definition ctest_step (filters : list string) (line : string) : list string :=
  let line := strip line in
  if String.eqb line "" then filters
  else
    match ctest_match line with
    | Some n => filters ++ [n]
    | None =>
        match split "!!!" line with
        | _ :: middle :: _ => filters ++ [middle]
        | _ => filters
        end
    end.

Definition _convert_ctest_filter (lines : list string) : string :=
  join "|" (foldl ctest_step [] lines).

(* ===================================================================== *)
(** * Definitions that follow the words of the specification *)
(* ===================================================================== *)

(** Splice [span] in place of the lines [a, b) of a buffer, counted from
    zero: the lines before [a], the span, the lines from [b] on. *)
Definition spec_splice (buffer : list string) (a b : Z) (span : list string)
  : list string :=
  take (Z.to_nat a) buffer ++ span ++ drop (Z.to_nat b) buffer.

(** The span of a forward application: every context line and every [+]
    line, without its tag. *)
Definition spec_forward_span (h : Hunk) : list string :=
  tail1 <$> filter (λ l, startswith l "+" || startswith l " ") (lines h).

(** The span of a reverse application: every context line and every [-]
    line, without its tag. *)
Definition spec_reverse_span (h : Hunk) : list string :=
  tail1 <$> filter (λ l, startswith l "-" || startswith l " ") (lines h).

(** The hunks of a file describe the change from its old lines to its new
    lines: each hunk starts where its first line stands on either side
    (counted from one), its counts are the numbers of its lines on either
    side, and the lines between hunks are the same on both sides.  [po]
    and [pn] count the old and new lines that precede. *)
Inductive describes
  : nat → nat → list Hunk → list string → list string → Prop :=
  | describes_nil (po pn : nat) (rest : list string) :
      describes po pn [] rest rest
  | describes_cons (po pn : nat) (h : Hunk) (hs : list Hunk)
      (ctx old_rest new_rest : list string) :
      old_start h = Z.of_nat (po + length ctx) + 1 →
      new_start h = Z.of_nat (pn + length ctx) + 1 →
      old_count h = Z.of_nat (length (spec_reverse_span h)) →
      new_count h = Z.of_nat (length (spec_forward_span h)) →
      describes (po + length ctx + length (spec_reverse_span h))
                (pn + length ctx + length (spec_forward_span h))
                hs old_rest new_rest →
      describes po pn (h :: hs)
                (ctx ++ spec_reverse_span h ++ old_rest)
                (ctx ++ spec_forward_span h ++ new_rest).

(** Hunk parsing as the specification words it: a line that begins with
    none of the four tags ends the collection of the current hunk.  The
    state also says whether the current hunk still collects. *)
Definition spec_parse_hunks_step (st : list Hunk * option Hunk * bool)
    (line : string) : list Hunk * option Hunk * bool :=
  let '(hunks, current_hunk, collecting) := st in
  match hunk_match line with
  | Some (os, oc, ns, nc) =>
      (match current_hunk with
       | Some h => hunks ++ [h]
       | None => hunks
       end,
       Some (mkHunk os oc ns nc []), true)
  | None =>
      match current_hunk with
      | Some h =>
          if collecting && is_hunk_line line
          then (hunks, Some (with_lines h (lines h ++ [line])), true)
          else (hunks, Some h, false)
      | None => (hunks, None, collecting)
      end
  end.

Definition spec_parse_hunks_lines (ls : list string) : list Hunk :=
  parse_hunks_finish (fst (foldl spec_parse_hunks_step ([], None, true) ls)).

(** The invariant of the data model: no path with two different actions. *)
Definition one_action_per_path (cl : Changelist) : Prop :=
  ∀ i1 i2, i1 ∈ items cl → i2 ∈ items cl →
           filepath i1 = filepath i2 → action i1 = action i2.

(** A test identifier: its parts, written with [!!!] between them. *)
Definition test_id (parts : list string) : string := join "!!!" parts.

(** No [!] inside a part of an identifier. *)
Fixpoint bang_free (s : string) : Prop :=
  match s with
  | EmptyString => True
  | String c r => c ≠ "!"%char ∧ bang_free r
  end.

(** What the GoogleTest filter holds for an identifier, by its parts. *)
Definition gtest_entry (parts : list string) : list string :=
  match parts with
  | _ :: suite :: case :: _ => [suite +:+ "." +:+ case]
  | [_; suite] => [suite +:+ ".*"]
  | _ => []
  end.

(** What the CTest filter holds for an identifier, by its parts. *)
Definition ctest_entry (parts : list string) : list string :=
  match parts with
  | _ :: middle :: _ => [middle]
  | _ => []
  end.

(** The item that a line of the diff gives rise to when it is a header:
    the path of the group and the action read off the next line. *)
Definition header_item (all_lines : list string) (idx : nat) (line : string)
  : option ChangelistItem :=
  if startswith line "diff --git" then
    fp ← diff_match line;
    Some (mkItem (Path_of fp) (action_after (all_lines !! S idx)))
  else None.

(** The text by which [_get_old_file_content] and [_get_new_file_content]
    compare an item with the path they are asked for. *)
Definition item_path (it : ChangelistItem) : string :=
  replace_char "\" "/" (path_str (filepath it)).

(** The path is in the change list, and with this action only. *)
Definition has_action (cl : Changelist) (fp : string)
    (a : ChangelistItemAction) : Prop :=
  (∃ it, it ∈ items cl ∧ item_path it = fp) ∧
  (∀ it, it ∈ items cl → item_path it = fp → action it = a).

(** The path is not in the change list. *)
Definition absent (cl : Changelist) (fp : string) : Prop :=
  ∀ it, it ∈ items cl → item_path it ≠ fp.

(** The revision asks for the new side. *)
Definition asks_new_side (revision : string) : Prop :=
  lower revision ∈ ["head"; "new"; "to"; ""].

(** A piece of a run raises from a given state of the output directory. *)
Definition raises {A} (m : IO A) (o : OutDir) : Prop :=
  ∃ o' e, m o = (o', Raise e).

(** The retest-all result, as the files of the output directory hold it:
    the one included test [*], no excluded test, and the single cause. *)
Definition retest_all_result (selection_failure : string) (o : OutDir)
  : Prop :=
  files o !! INCLUDED_TESTS_FILE = Some (Text ("*" +:+ LF)) ∧
  files o !! EXCLUDED_TESTS_FILE = Some (Text "") ∧
  files o !! SELECTION_CAUSES_FILE
    = Some (Json [("*", [selection_failure])]).

(** No line boundary inside a line. *)
Fixpoint no_linebreak (s : string) : Prop :=
  match s with
  | EmptyString => True
  | String c r => is_linebreak c = false ∧ no_linebreak r
  end.

(* ===================================================================== *)
(** * Concrete inputs *)
(* ===================================================================== *)

(** The two-hunk scenario of the specification: [A] becomes [A2] and [D]
    becomes [D2]. *)
Definition two_hunk_section : string :=
  "diff --git a/f b/f" +:+ LF +:+
  "--- a/f" +:+ LF +:+
  "+++ b/f" +:+ LF +:+
  "@@ -1,1 +1,1 @@" +:+ LF +:+
  "-A" +:+ LF +:+
  "+A2" +:+ LF +:+
  "@@ -4,1 +4,1 @@" +:+ LF +:+
  "-D" +:+ LF +:+
  "+D2".

Definition two_hunk_client (state : string) : DiffFileClient :=
  mkClient (Path_of "/repo") None state (Some two_hunk_section) None
           {[ "f" := two_hunk_section ]}.


(** A section with a line that carries no tag between two [+] lines. *)
Definition gap_section : string :=
  "@@ -1 +1,2 @@" +:+ LF +:+ "+a" +:+ LF +:+ "index" +:+ LF +:+ "+b".

(** A diff text that names the path [x] twice, once as a new file and
    once as a deleted file (two patches, one after the other). *)
Definition twice_diff : string :=
  "diff --git a/x b/x" +:+ LF +:+ "new file mode 100644" +:+ LF +:+
  "diff --git a/x b/x" +:+ LF +:+ "deleted file mode 100644" +:+ LF.

Definition twice_client : DiffFileClient :=
  mkClient (Path_of "/repo") None "new" (Some twice_diff) None ∅.

(** A diff text with a modified, an added and a deleted file. *)
Definition three_files_diff : string :=
  "diff --git a/src/f.c b/src/f.c" +:+ LF +:+
  "index 1..2 100644" +:+ LF +:+
  "--- a/src/f.c" +:+ LF +:+
  "+++ b/src/f.c" +:+ LF +:+
  "@@ -1,1 +1,1 @@" +:+ LF +:+
  "-A" +:+ LF +:+
  "+A2" +:+ LF +:+
  "diff --git a/new.c b/new.c" +:+ LF +:+
  "new file mode 100644" +:+ LF +:+
  "--- /dev/null" +:+ LF +:+
  "+++ b/new.c" +:+ LF +:+
  "@@ -0,0 +1,2 @@" +:+ LF +:+
  "+x" +:+ LF +:+
  "+y" +:+ LF +:+
  "diff --git a/gone.c b/gone.c" +:+ LF +:+
  "deleted file mode 100644" +:+ LF +:+
  "--- a/gone.c" +:+ LF +:+
  "+++ /dev/null" +:+ LF +:+
  "@@ -1,1 +0,0 @@" +:+ LF +:+
  "-z" +:+ LF.

Definition three_files_world : World :=
  mkWorld {[ "/repo/src/f.c" := "A2" +:+ LF +:+ "B" +:+ LF;
             "/repo/new.c" := "x" +:+ LF +:+ "y" +:+ LF;
             "/repo/other.c" := "o" +:+ LF ]}.

Definition three_files_client (state : string) : DiffFileClient :=
  mkClient (Path_of "/repo") None state (Some three_files_diff) None ∅.

(* ===================================================================== *)
(** * Further commands ([utils.py]: [merge], [filter]; [select.py]:
      the callback [select]) *)
(* ===================================================================== *)

(** The lines of a text, each with the line feed that ends it. *)
Fixpoint lines_keepends (s : string) : list string :=
  match s with
  | EmptyString => []
  | String c r =>
      if Ascii.eqb c "010"
      then String c EmptyString :: lines_keepends r
      else cons_first c (lines_keepends r)
  end.

(** [for line in fp] and [fp.readlines()] for a file opened as text. *)
Definition text_file_lines (content : string) : list string :=
  lines_keepends (universal_newlines content).

(** The version control client that the callback [select] builds; the
    client for git is [binaryrts/vcs/git.py]. *)
Inductive VcsClient : Type :=
  | GitBacked (repo_root : Path)
  | DiffBacked (c : DiffFileClient).

(** [class TestFramework] *)
Inductive TestFramework : Type := GTEST | CTEST.

Module Commands.

(** The first loop of [merge], over the lines of one excludes file. *)
Definition merge_exclude_step (final_excludes : gset string) (line : string)
  : gset string :=
  let test_id := strip line in
  if String.eqb test_id "" then final_excludes
  else {[ test_id ]} ∪ final_excludes.

(** The second loop of [merge], over the lines of one includes file; the
    flag says that [break] has left the loop. *)
Definition merge_include_step (st : gset string * bool) (line : string)
  : gset string * bool :=
  let '(final_excludes, stop) := st in
  if stop then st
  else
    let test_id := strip line in
    if String.eqb test_id "*" then (∅, true)
    else if negb (String.eqb test_id "")
            && bool_decide (test_id ∈ final_excludes)
         then (final_excludes ∖ {[ test_id ]}, false)
         else (final_excludes, false).

(** [with file.open("r") as fp], for each file in turn. *)
Fixpoint merge_excludes (w : World) (exclude_files : list Path)
    (final_excludes : gset string) : result (gset string) :=
  match exclude_files with
  | [] => Ok final_excludes
  | file :: rest =>
      match read_text w file with
      | None => Raise (FileNotFoundError (path_str file))
      | Some content =>
          merge_excludes w rest
            (foldl merge_exclude_step final_excludes
                   (text_file_lines content))
      end
  end.

Fixpoint merge_includes (w : World) (include_files : list Path)
    (final_excludes : gset string) : result (gset string) :=
  match include_files with
  | [] => Ok final_excludes
  | file :: rest =>
      match read_text w file with
      | None => Raise (FileNotFoundError (path_str file))
      | Some content =>
          merge_includes w rest
            (foldl merge_include_step (final_excludes, false)
                   (text_file_lines content)).1
      end
  end.

(** The set [final_excludes] at the end of [merge]. *)
Definition merge_final_excludes (w : World)
    (include_files exclude_files : list Path) : result (gset string) :=
  final_excludes ← merge_excludes w exclude_files ∅;
  merge_includes w include_files final_excludes.

(** [merge]: the merged excludes, written to the output directory. *)
Definition merge (w : World) (seed : list nat)
    (include_files exclude_files : list Path) : IO unit :=
  lift (merge_final_excludes w include_files exclude_files)
    >>= λ final_excludes,
  write_text EXCLUDED_TESTS_FILE
    (join LF (set_order seed (elements final_excludes))).

(** The callback [select]: the client and the revisions it hands to the
    commands.  [is_git_repo] and [get_dirty_diff] are the results of the
    two calls of that name. *)
Definition select (is_git_repo : bool) (get_dirty_diff : result string)
    (from_revision to_revision : string) (repo_root : Path)
    (diff_file : option Path) (dirty : bool) (repo_state : string)
    (simple_output : bool)
  : result (VcsClient * SelectCommonOptions) :=
  if dirty then
    if negb is_git_repo then
      Raise (OtherException
               "Repository root must be a git directory when using --dirty.")
    else
      diff_content ← get_dirty_diff;
      c ← __init__ repo_root None "new" (Some diff_content);
      Ok (DiffBacked c, mkSelectCommonOptions "HEAD" "dirty" simple_output)
  else
    match diff_file with
    | Some f =>
        c ← __init__ repo_root (Some f) repo_state None;
        Ok (DiffBacked c, mkSelectCommonOptions "old" "new" simple_output)
    | None =>
        if negb is_git_repo then
          Raise (OtherException
                   ("Repository root must be a git directory when not using --diff-file or --dirty. "
                    +:+ "Use --diff-file to provide a unified diff instead."))
        else
          Ok (GitBacked repo_root,
              mkSelectCommonOptions
                (if String.eqb from_revision "" then "main" else from_revision)
                (if String.eqb to_revision "" then "HEAD" else to_revision)
                simple_output)
    end.

(** The command [filter]: the text it prints. *)
Definition filter (w : World) (input_file : Path) (framework : TestFramework)
  : result string :=
  match read_text w input_file with
  | None => Raise (FileNotFoundError (path_str input_file))
  | Some content =>
      let lines := text_file_lines content in
      Ok (match framework with
          | GTEST => _convert_gtest_filter lines
          | CTEST => _convert_ctest_filter lines
          end)
  end.

End Commands.

(* ===================================================================== *)
(** * Notions used by the further properties *)
(* ===================================================================== *)

(** A string of decimal digits. *)
Fixpoint all_digits (s : string) : Prop :=
  match s with
  | EmptyString => True
  | String c r => is_digit c = true ∧ all_digits r
  end.

(** The text of a hunk header: the starts, each with its count if it is
    written, and what follows the closing [@@]. *)
Definition count_text (count : option string) : string :=
  match count with
  | Some d => "," +:+ d
  | None => ""
  end.

Definition header_text (os : string) (oc : option string) (ns : string)
    (nc : option string) (rest : string) : string :=
  "@@ -" +:+ os +:+ count_text oc +:+ " +" +:+ ns +:+ count_text nc
  +:+ " @@" +:+ rest.

(** What [_parse_hunks] keeps for every hunk: numbers that are not
    negative and lines that carry a tag. *)
Definition parsed_hunk (h : Hunk) : Prop :=
  0 ≤ old_start h ∧ 0 ≤ old_count h ∧ 0 ≤ new_start h ∧ 0 ≤ new_count h
  ∧ Forall (λ l, is_hunk_line l) (lines h).

(** The stripped lines of a list of files. *)
Definition stripped_lines (contents : list string) : list string :=
  contents ≫= λ content, strip <$> text_file_lines content.

(** The three files of a selection are there. *)
Definition has_selection_files (o : OutDir) : Prop :=
  is_Some (files o !! INCLUDED_TESTS_FILE)
  ∧ is_Some (files o !! EXCLUDED_TESTS_FILE)
  ∧ is_Some (files o !! SELECTION_CAUSES_FILE).

(** Sections collected from the hunks of a parser state. *)
Definition sections_of (section : Hunk → list string)
    (st : list Hunk * option Hunk) : list string :=
  concat (section <$> parse_hunks_finish st).


(** The part of the loop of [get_diff] that builds the diff sections:
    [current_file], [current_diff_lines] and [self._file_diffs]. *)
Definition scan_files (sc : Scan)
  : option string * list string * gmap string string :=
  (current_file sc, current_diff_lines sc, file_diffs sc).

Definition files_save (st : option string * list string * gmap string string)
  : gmap string string :=
  match st with
  | (Some f, cdl, fd) => <[f := join LF cdl]> fd
  | (None, _, fd) => fd
  end.

Definition files_step (st : option string * list string * gmap string string)
    (line : string) : option string * list string * gmap string string :=
  if startswith line "diff --git" then
    match diff_match line with
    | Some fp => (Some fp, [line], files_save st)
    | None => (st.1.1, st.1.2, files_save st)
    end
  else
    match st.1.1 with
    | Some _ => (st.1.1, st.1.2 ++ [line], st.2)
    | None => st
    end.

(** An excludes file with the tests [t1] and [t2] and an includes file
    with the test [t2]. *)
Definition merge_world : World :=
  mkWorld {[ "/out/a/excluded.txt" := "t1" +:+ LF +:+ "t2" +:+ LF;
             "/out/b/included.txt" := "t2" +:+ LF ]}.

(** The diff section of an added file with two lines. *)
Definition added_section : string :=
  "diff --git a/new.c b/new.c" +:+ LF +:+
  "new file mode 100644" +:+ LF +:+
  "--- /dev/null" +:+ LF +:+
  "+++ b/new.c" +:+ LF +:+
  "@@ -0,0 +1,2 @@" +:+ LF +:+
  "+x" +:+ LF +:+ "+y".

(** A hunk as a section writes it: a header line that gives its four
    numbers, followed by its lines, each with a tag. *)
Definition written_hunk (hh : string * Hunk) : Prop :=
  hunk_match hh.1
  = Some (old_start hh.2, old_count hh.2, new_start hh.2, new_count hh.2)
  ∧ Forall (λ l, is_hunk_line l) (lines hh.2).

(** The lines of a list of written hunks, in their order. *)
Definition hunk_blocks (hs : list (string * Hunk)) : list string :=
  hs ≫= λ hh, hh.1 :: lines hh.2.

(** A section with two hunks that change the number of lines: the first
    puts three lines for the first line, the second one line for the
    fourth and fifth. *)
Definition growing_section : string :=
  "diff --git a/g b/g" +:+ LF +:+
  "--- a/g" +:+ LF +:+
  "+++ b/g" +:+ LF +:+
  "@@ -1,1 +1,3 @@" +:+ LF +:+
  "-a" +:+ LF +:+
  "+a1" +:+ LF +:+
  "+a2" +:+ LF +:+
  "+a3" +:+ LF +:+
  "@@ -4,2 +6,1 @@" +:+ LF +:+
  "-d" +:+ LF +:+
  "-e" +:+ LF +:+
  "+z".

Definition growing_client : DiffFileClient :=
  mkClient (Path_of "/repo") None "old" None None {[ "g" := growing_section ]}.

(** A diff without context lines ([git diff -U0]) of a file that gets the
    line [X] in front of its first line; the file on disk is the old one. *)
Definition top_insert_diff : string :=
  "diff --git a/f.c b/f.c" +:+ LF +:+
  "index 1..2 100644" +:+ LF +:+
  "--- a/f.c" +:+ LF +:+
  "+++ b/f.c" +:+ LF +:+
  "@@ -0,0 +1 @@" +:+ LF +:+
  "+X" +:+ LF.

Definition top_insert_world : World :=
  mkWorld {[ "/repo/f.c" := "a" +:+ LF +:+ "b" +:+ LF ]}.

Definition top_insert_client : DiffFileClient :=
  mkClient (Path_of "/repo") None "old" (Some top_insert_diff) None ∅.

(** A diff text of two patches, one after the other: the first adds the
    file [x] with the line [hello], the second deletes it. *)
Definition added_deleted_diff : string :=
  "diff --git a/x b/x" +:+ LF +:+
  "new file mode 100644" +:+ LF +:+
  "--- /dev/null" +:+ LF +:+
  "+++ b/x" +:+ LF +:+
  "@@ -0,0 +1 @@" +:+ LF +:+
  "+hello" +:+ LF +:+
  "diff --git a/x b/x" +:+ LF +:+
  "deleted file mode 100644" +:+ LF +:+
  "--- a/x" +:+ LF +:+
  "+++ /dev/null" +:+ LF +:+
  "@@ -1 +0,0 @@" +:+ LF +:+
  "-hello" +:+ LF.

Definition added_deleted_client : DiffFileClient :=
  mkClient (Path_of "/repo") None "new" (Some added_deleted_diff) None ∅.
(* ===================================================================== *)
(** * Facts about strings, slices and set order *)
(* ===================================================================== *)

Lemma slice_to_nonneg {A} (l : list A) (i : Z) :
  0 ≤ i → slice_to l i = take (Z.to_nat i) l.
Proof.
  intros Hi. unfold slice_to, slice_bound.
  destruct (Z.ltb_spec i 0); [lia | done].
Qed.

Lemma slice_from_nonneg {A} (l : list A) (i : Z) :
  0 ≤ i → slice_from l i = drop (Z.to_nat i) l.
Proof.
  intros Hi. unfold slice_from, slice_bound.
  destruct (Z.ltb_spec i 0); [lia | done].
Qed.

Lemma slice_to_prefix {A} (pre rest : list A) (i : Z) :
  i = Z.of_nat (length pre) → slice_to (pre ++ rest) i = pre.
Proof.
  intros ->. rewrite slice_to_nonneg by lia.
  rewrite Nat2Z.id. by rewrite take_app_length.
Qed.

Lemma slice_from_suffix {A} (pre mid rest : list A) (i : Z) :
  i = Z.of_nat (length pre) + Z.of_nat (length mid) →
  slice_from (pre ++ mid ++ rest) i = rest.
Proof.
  intros ->. rewrite slice_from_nonneg by lia.
  replace (Z.to_nat (Z.of_nat (length pre) + Z.of_nat (length mid)))
    with (length (pre ++ mid)) by (rewrite length_app; lia).
  rewrite app_assoc. by rewrite drop_app_length.
Qed.

Lemma insert_at_perm {A} (n : nat) (x : A) (l : list A) :
  insert_at n x l ≡ₚ x :: l.
Proof.
  unfold insert_at. rewrite <- Permutation_middle.
  by rewrite take_drop.
Qed.

Lemma set_order_perm {A} (seed : list nat) (l : list A) :
  set_order seed l ≡ₚ l.
Proof.
  revert seed. induction l as [|x l IH]; intros seed; simpl; [done|].
  rewrite insert_at_perm. by rewrite IH.
Qed.

Lemma elem_of_set_order {A} (seed : list nat) (l : list A) (x : A) :
  x ∈ set_order seed l ↔ x ∈ l.
Proof. by rewrite set_order_perm. Qed.

(* ===================================================================== *)
(** * Facts about hunks *)
(* ===================================================================== *)

Lemma startswith_char (l : string) (a : ascii) :
  startswith l (String a EmptyString)
  = match l with
    | String c _ => bool_decide (a = c)
    | EmptyString => false
    end.
Proof.
  destruct l as [|c r]; [done|]. unfold startswith. simpl.
  destruct (ascii_dec a c); case_bool_decide; try done.
  by destruct r.
Qed.

Lemma startswith_char_excl (l : string) (a b : ascii) :
  startswith l (String a EmptyString) = true →
  startswith l (String b EmptyString) = true → a = b.
Proof.
  rewrite !startswith_char. destruct l; [done|].
  do 2 case_bool_decide; congruence.
Qed.

Lemma forward_section_foldl (acc ls : list string) :
  foldl forward_section_step acc ls
  = acc ++ (tail1 <$> filter (λ l, startswith l "+" || startswith l " ") ls).
Proof.
  revert acc. induction ls as [|l ls IH]; intros acc.
  - simpl. by rewrite app_nil_r.
  - cbn [foldl]. rewrite IH, filter_cons. unfold forward_section_step.
    destruct (startswith l "+") eqn:Hp, (startswith l "-") eqn:Hm,
             (startswith l " ") eqn:Hs;
      try (by pose proof (startswith_char_excl _ _ _ Hp Hm));
      try (by pose proof (startswith_char_excl _ _ _ Hm Hs));
      destruct (decide _) as [Hd|Hd]; simpl in Hd; try done;
      by rewrite ?fmap_cons, <- ?app_assoc.
Qed.

Lemma reverse_section_foldl (acc ls : list string) :
  foldl reverse_section_step acc ls
  = acc ++ (tail1 <$> filter (λ l, startswith l "-" || startswith l " ") ls).
Proof.
  revert acc. induction ls as [|l ls IH]; intros acc.
  - simpl. by rewrite app_nil_r.
  - cbn [foldl]. rewrite IH, filter_cons. unfold reverse_section_step.
    destruct (startswith l "+") eqn:Hp, (startswith l "-") eqn:Hm,
             (startswith l " ") eqn:Hs;
      try (by pose proof (startswith_char_excl _ _ _ Hp Hm));
      try (by pose proof (startswith_char_excl _ _ _ Hp Hs));
      try (by pose proof (startswith_char_excl _ _ _ Hm Hs));
      destruct (decide _) as [Hd|Hd]; simpl in Hd; try done;
      by rewrite ?fmap_cons, <- ?app_assoc.
Qed.

Lemma new_section_spec (h : Hunk) : new_section h = spec_forward_span h.
Proof. unfold new_section. by rewrite forward_section_foldl. Qed.

Lemma old_section_spec (h : Hunk) : old_section h = spec_reverse_span h.
Proof. unfold old_section. by rewrite reverse_section_foldl. Qed.

Lemma forward_apply_hunks_cons (h : Hunk) (hs : list Hunk) (buffer : list string) :
  forward_apply_hunks (h :: hs) buffer
  = _forward_apply_hunk (forward_apply_hunks hs buffer) h.
Proof. unfold forward_apply_hunks. by rewrite reverse_cons, foldl_app. Qed.

Lemma reverse_apply_hunks_cons (h : Hunk) (hs : list Hunk) (buffer : list string) :
  reverse_apply_hunks (h :: hs) buffer
  = _reverse_apply_hunk (reverse_apply_hunks hs buffer) h.
Proof. unfold reverse_apply_hunks. by rewrite reverse_cons, foldl_app. Qed.

Lemma forward_apply_hunks_snoc (hs : list Hunk) (h : Hunk) (buffer : list string) :
  forward_apply_hunks (hs ++ [h]) buffer
  = forward_apply_hunks hs (_forward_apply_hunk buffer h).
Proof. unfold forward_apply_hunks. by rewrite reverse_snoc. Qed.

Lemma reverse_apply_hunks_snoc (hs : list Hunk) (h : Hunk) (buffer : list string) :
  reverse_apply_hunks (hs ++ [h]) buffer
  = reverse_apply_hunks hs (_reverse_apply_hunk buffer h).
Proof. unfold reverse_apply_hunks. by rewrite reverse_snoc. Qed.

Lemma forward_apply_hunks_foldr (hs : list Hunk) (buffer : list string) :
  forward_apply_hunks hs buffer
  = foldr (λ h acc, _forward_apply_hunk acc h) buffer hs.
Proof.
  induction hs as [|h hs IH]; [done|].
  by rewrite forward_apply_hunks_cons, IH.
Qed.

Lemma reverse_apply_hunks_foldr (hs : list Hunk) (buffer : list string) :
  reverse_apply_hunks hs buffer
  = foldr (λ h acc, _reverse_apply_hunk acc h) buffer hs.
Proof.
  induction hs as [|h hs IH]; [done|].
  by rewrite reverse_apply_hunks_cons, IH.
Qed.

Lemma forward_apply_hunk_splice (buffer : list string) (h : Hunk) :
  1 ≤ old_start h → 0 ≤ old_count h →
  _forward_apply_hunk buffer h
  = spec_splice buffer (old_start h - 1) (old_start h - 1 + old_count h)
                (spec_forward_span h).
Proof.
  intros Hs Hc. unfold _forward_apply_hunk, spec_splice.
  rewrite slice_to_nonneg, slice_from_nonneg by lia.
  by rewrite new_section_spec.
Qed.

Lemma reverse_apply_hunk_splice (buffer : list string) (h : Hunk) :
  1 ≤ new_start h → 0 ≤ new_count h →
  _reverse_apply_hunk buffer h
  = spec_splice buffer (new_start h - 1) (new_start h - 1 + new_count h)
                (spec_reverse_span h).
Proof.
  intros Hs Hc. unfold _reverse_apply_hunk, spec_splice.
  rewrite slice_to_nonneg, slice_from_nonneg by lia.
  by rewrite old_section_spec.
Qed.

Lemma reverse_describes (po pn : nat) (hs : list Hunk) (old new : list string) :
  describes po pn hs old new →
  ∀ pre, length pre = pn → reverse_apply_hunks hs (pre ++ new) = pre ++ old.
Proof.
  induction 1 as [|po pn h hs ctx old_rest new_rest Hos Hns Hoc Hnc _ IH];
    intros pre Hpre; [done|].
  rewrite reverse_apply_hunks_cons.
  replace (pre ++ ctx ++ spec_forward_span h ++ new_rest)
    with ((pre ++ ctx ++ spec_forward_span h) ++ new_rest)
    by (by rewrite <- !app_assoc).
  rewrite IH by (rewrite !length_app; lia).
  unfold _reverse_apply_hunk. rewrite old_section_spec.
  replace ((pre ++ ctx ++ spec_forward_span h) ++ old_rest)
    with ((pre ++ ctx) ++ spec_forward_span h ++ old_rest)
    by (by rewrite <- !app_assoc).
  rewrite slice_to_prefix by (rewrite length_app; lia).
  rewrite slice_from_suffix by (rewrite length_app; lia).
  by rewrite <- !app_assoc.
Qed.

Lemma forward_describes (po pn : nat) (hs : list Hunk) (old new : list string) :
  describes po pn hs old new →
  ∀ pre, length pre = po → forward_apply_hunks hs (pre ++ old) = pre ++ new.
Proof.
  induction 1 as [|po pn h hs ctx old_rest new_rest Hos Hns Hoc Hnc _ IH];
    intros pre Hpre; [done|].
  rewrite forward_apply_hunks_cons.
  replace (pre ++ ctx ++ spec_reverse_span h ++ old_rest)
    with ((pre ++ ctx ++ spec_reverse_span h) ++ old_rest)
    by (by rewrite <- !app_assoc).
  rewrite IH by (rewrite !length_app; lia).
  unfold _forward_apply_hunk. rewrite new_section_spec.
  replace ((pre ++ ctx ++ spec_reverse_span h) ++ new_rest)
    with ((pre ++ ctx) ++ spec_reverse_span h ++ new_rest)
    by (by rewrite <- !app_assoc).
  rewrite slice_to_prefix by (rewrite length_app; lia).
  rewrite slice_from_suffix by (rewrite length_app; lia).
  by rewrite <- !app_assoc.
Qed.

Lemma parse_hunks_step_header (hunks : list Hunk) (cur : option Hunk)
    (line : string) (os oc ns nc : Z) :
  hunk_match line = Some (os, oc, ns, nc) →
  parse_hunks_step (hunks, cur) line
  = (parse_hunks_finish (hunks, cur), Some (mkHunk os oc ns nc [])).
Proof. intros H. unfold parse_hunks_step. rewrite H. by destruct cur. Qed.

Lemma parse_hunks_step_shift (cur : option Hunk) (line : string) :
  ∃ more cur', ∀ hunks,
    parse_hunks_step (hunks, cur) line = (hunks ++ more, cur').
Proof.
  unfold parse_hunks_step.
  destruct (hunk_match line) as [[[[os oc] ns] nc]|].
  - destruct cur as [h|].
    + by exists [h], (Some (mkHunk os oc ns nc [])).
    + exists [], (Some (mkHunk os oc ns nc [])). intros. by rewrite app_nil_r.
  - destruct cur as [h|].
    + destruct (is_hunk_line line); eexists [], _; intros; by rewrite app_nil_r.
    + exists [], None. intros. by rewrite app_nil_r.
Qed.

Lemma parse_hunks_finish_shift (hunks : list Hunk) (cur : option Hunk)
    (ls : list string) :
  parse_hunks_finish (foldl parse_hunks_step (hunks, cur) ls)
  = hunks ++ parse_hunks_finish (foldl parse_hunks_step ([], cur) ls).
Proof.
  revert hunks cur. induction ls as [|l ls IH]; intros hunks cur.
  - simpl. destruct cur; simpl; by rewrite ?app_nil_r.
  - cbn [foldl].
    destruct (parse_hunks_step_shift cur l) as (more & cur' & Hstep).
    rewrite !Hstep. rewrite (IH (hunks ++ more)), (IH ([] ++ more)).
    by rewrite <- app_assoc.
Qed.

Lemma parse_hunks_body (hunks : list Hunk) (h : Hunk) (body : list string) :
  Forall (λ l, hunk_match l = None) body →
  foldl parse_hunks_step (hunks, Some h) body
  = (hunks, Some (with_lines h (lines h ++ filter (λ l, is_hunk_line l) body))).
Proof.
  intros Hbody. revert h.
  induction Hbody as [|l body Hl _ IH]; intros h.
  - simpl. rewrite app_nil_r. by destruct h.
  - cbn [foldl]. rewrite filter_cons.
    assert (parse_hunks_step (hunks, Some h) l
            = (hunks, Some (if is_hunk_line l
                            then with_lines h (lines h ++ [l]) else h))) as ->.
    { unfold parse_hunks_step. rewrite Hl. by destruct (is_hunk_line l). }
    rewrite IH. destruct (is_hunk_line l); simpl.
    + unfold with_lines. simpl. by rewrite <- app_assoc.
    + done.
Qed.

Lemma parse_hunks_lines_header (hdr : string) (ls : list string)
    (os oc ns nc : Z) :
  hunk_match hdr = Some (os, oc, ns, nc) →
  parse_hunks_lines (hdr :: ls)
  = parse_hunks_finish
      (foldl parse_hunks_step ([], Some (mkHunk os oc ns nc [])) ls).
Proof.
  intros H. unfold parse_hunks_lines. cbn [foldl].
  by rewrite (parse_hunks_step_header _ _ _ _ _ _ _ H).
Qed.

Lemma parse_hunks_lines_app_header (pre rest : list string) (hdr : string) :
  is_Some (hunk_match hdr) →
  parse_hunks_lines (pre ++ hdr :: rest)
  = parse_hunks_lines pre ++ parse_hunks_lines (hdr :: rest).
Proof.
  intros [[[[os oc] ns] nc] H].
  rewrite (parse_hunks_lines_header _ _ _ _ _ _ H).
  unfold parse_hunks_lines. rewrite foldl_app. cbn [foldl].
  destruct (foldl parse_hunks_step ([], None) pre) as [hunks cur].
  rewrite (parse_hunks_step_header _ _ _ _ _ _ _ H).
  by rewrite parse_hunks_finish_shift.
Qed.

Lemma parse_hunks_collects (pre body rest : list string) (hdr : string)
    (os oc ns nc : Z) :
  hunk_match hdr = Some (os, oc, ns, nc) →
  Forall (λ l, hunk_match l = None) body →
  (rest = [] ∨ ∃ l r, rest = l :: r ∧ is_Some (hunk_match l)) →
  parse_hunks_lines (pre ++ hdr :: body ++ rest)
  = parse_hunks_lines pre
    ++ [mkHunk os oc ns nc (filter (λ l, is_hunk_line l) body)]
    ++ parse_hunks_lines rest.
Proof.
  intros Hhdr Hbody Hrest.
  rewrite parse_hunks_lines_app_header by (by rewrite Hhdr).
  f_equal.
  destruct Hrest as [->|(l & r & -> & Hl)].
  - rewrite app_nil_r, (parse_hunks_lines_header _ _ _ _ _ _ Hhdr).
    by rewrite parse_hunks_body.
  - replace (hdr :: body ++ l :: r) with ((hdr :: body) ++ l :: r) by done.
    rewrite parse_hunks_lines_app_header by done. f_equal.
    rewrite (parse_hunks_lines_header _ _ _ _ _ _ Hhdr).
    by rewrite parse_hunks_body.
Qed.
Lemma elem_of_enumerate {A} (l : list A) (idx : nat) (x : A) :
  (idx, x) ∈ enumerate l ↔ l !! idx = Some x.
Proof.
  unfold enumerate. rewrite elem_of_lookup_imap. split.
  - intros (i & y & [= -> ->] & H). done.
  - intros H. by exists idx, x.
Qed.

Lemma scan_items_step (all_lines : list string) (sc : Scan) (idx : nat)
    (line : string) :
  scan_items (get_diff_step all_lines sc (idx, line))
  = match header_item all_lines idx line with
    | Some it => {[ it ]} ∪ scan_items sc
    | None => scan_items sc
    end.
Proof.
  unfold get_diff_step, header_item.
  destruct (startswith line "diff --git").
  - by destruct (diff_match line).
  - by destruct (current_file sc).
Qed.

Lemma scan_items_foldl (all_lines : list string) (l : list (nat * string))
    (sc : Scan) (it : ChangelistItem) :
  it ∈ scan_items (foldl (get_diff_step all_lines) sc l)
  ↔ it ∈ scan_items sc
    ∨ ∃ idx line, (idx, line) ∈ l ∧ header_item all_lines idx line = Some it.
Proof.
  revert sc. induction l as [|[idx line] l IH]; intros sc.
  - simpl. split; [by left|]. intros [H|(? & ? & H & _)]; [done|].
    by apply elem_of_nil in H.
  - cbn [foldl]. rewrite IH, scan_items_step. split.
    + intros [H|(i & ln & H & Hit)].
      * destruct (header_item all_lines idx line) as [it'|] eqn:Hh.
        -- apply elem_of_union in H as [H|H]; [|by left].
           apply elem_of_singleton in H as ->.
           right. exists idx, line. split; [left|done].
        -- by left.
      * right. exists i, ln. split; [by right|done].
    + intros [H|(i & ln & H & Hit)].
      * left. destruct (header_item all_lines idx line); [|done].
        apply elem_of_union. by right.
      * apply elem_of_cons in H as [[= -> ->]|H].
        -- left. rewrite Hit. apply elem_of_union. left.
           by apply elem_of_singleton.
        -- right. by exists i, ln.
Qed.

Lemma get_diff_scan_items (fd0 : gmap string string) (all_lines : list string)
    (it : ChangelistItem) :
  it ∈ scan_items (get_diff_scan fd0 all_lines)
  ↔ ∃ idx line, all_lines !! idx = Some line
                ∧ header_item all_lines idx line = Some it.
Proof.
  unfold get_diff_scan. rewrite scan_items_foldl. simpl. split.
  - intros [H|(idx & line & H & Hit)]; [by apply elem_of_empty in H|].
    exists idx, line. by rewrite <- elem_of_enumerate.
  - intros (idx & line & H & Hit). right. exists idx, line.
    by rewrite elem_of_enumerate.
Qed.

(** A first call of [get_diff] parses the text. *)
Lemma get_diff_fresh (w : World) (seed : list nat) (c c1 : DiffFileClient)
    (text : string) :
  _changelist c = None → diff_content w c = Ok (text, c1) →
  let sc := get_diff_scan (_file_diffs c1) (splitlines text) in
  let cl := mkChangelist (set_order seed (elements (scan_items sc))) in
  get_diff w seed c = Ok (cl, set_parsed c1 cl (save_file_diff sc)).
Proof. intros Hc Ht. unfold get_diff. rewrite Hc, Ht. done. Qed.

Lemma get_diff_fresh_items (w : World) (seed : list nat) (c c1 : DiffFileClient)
    (text : string) :
  _changelist c = None → diff_content w c = Ok (text, c1) →
  ∃ cl c', get_diff w seed c = Ok (cl, c') ∧
    ∀ it, it ∈ items cl
          ↔ ∃ idx line, splitlines text !! idx = Some line
                        ∧ header_item (splitlines text) idx line = Some it.
Proof.
  intros Hc Ht. eexists _, _. split; [by apply get_diff_fresh|].
  intros it. simpl. rewrite elem_of_set_order, elem_of_elements.
  apply get_diff_scan_items.
Qed.

Lemma diff_content_fields (w : World) (c c1 : DiffFileClient) (text : string) :
  diff_content w c = Ok (text, c1) →
  root c1 = root c ∧ repo_state c1 = repo_state c
  ∧ _changelist c1 = _changelist c ∧ _diff_content c1 = Some text.
Proof.
  unfold diff_content. destruct (_diff_content c) as [t|] eqn:Hd.
  - intros [= <- <-]. done.
  - destruct (diff_file c); [|done].
    destruct (read_text w p); [|done]. intros [= <- <-]. done.
Qed.

(** After a call of [get_diff] the change list is kept in the client. *)
Lemma get_diff_cached (w : World) (seed : list nat) (c c' : DiffFileClient)
    (cl : Changelist) :
  get_diff w seed c = Ok (cl, c') →
  _changelist c' = Some cl ∧ root c' = root c ∧ repo_state c' = repo_state c.
Proof.
  unfold get_diff. destruct (_changelist c) as [cl0|] eqn:Hc.
  - intros [= <- <-]. done.
  - destruct (diff_content w c) as [[text c1]|e] eqn:Ht; [|done].
    simpl. intros [= <- <-]. simpl.
    by destruct (diff_content_fields _ _ _ _ Ht) as (-> & -> & _).
Qed.

Lemma get_diff_again (w : World) (seed seed' : list nat)
    (c c' : DiffFileClient) (cl : Changelist) :
  get_diff w seed c = Ok (cl, c') → get_diff w seed' c' = Ok (cl, c').
Proof.
  intros H. apply get_diff_cached in H as (H & _).
  unfold get_diff. by rewrite H.
Qed.

Lemma find_item_Some (its : list ChangelistItem) (fp : string)
    (it : ChangelistItem) :
  find_item its fp = Some it → it ∈ its ∧ item_path it = fp.
Proof.
  induction its as [|ci its IH]; [done|]. simpl.
  destruct (String.eqb_spec (replace_char "\" "/" (path_str (filepath ci))) fp)
    as [Heq|Hne].
  - intros [= ->]. split; [left|done].
  - intros H. destruct (IH H). split; [by right|done].
Qed.

Lemma find_item_None (its : list ChangelistItem) (fp : string) :
  find_item its fp = None ↔ ∀ it, it ∈ its → item_path it ≠ fp.
Proof.
  induction its as [|ci its IH]; simpl.
  - split; [|done]. intros _ it H. by apply elem_of_nil in H.
  - destruct (String.eqb_spec (replace_char "\" "/" (path_str (filepath ci))) fp)
      as [Heq|Hne].
    + split; [done|]. intros H. exfalso. apply (H ci); [left|done].
    + rewrite IH. split.
      * intros H it [->|Hin]%elem_of_cons; [done|by apply H].
      * intros H it Hin. apply H. by right.
Qed.

Lemma find_item_has_action (cl : Changelist) (fp : string)
    (a : ChangelistItemAction) :
  has_action cl fp a →
  ∃ it, find_item (items cl) fp = Some it ∧ action it = a.
Proof.
  intros [(it0 & Hin & Hp) Hall].
  destruct (find_item (items cl) fp) as [it|] eqn:Hf.
  - exists it. split; [done|].
    apply find_item_Some in Hf as [? ?]. by apply Hall.
  - exfalso. by apply (proj1 (find_item_None _ _) Hf it0).
Qed.
Lemma get_old_again (w : World) (seed seed' : list nat)
    (c c' : DiffFileClient) (fp s : string) :
  _get_old_file_content w seed c fp = Ok (s, c') →
  _get_old_file_content w seed' c' fp = Ok (s, c').
Proof.
  unfold _get_old_file_content.
  destruct (get_diff w seed c) as [[cl c1]|e] eqn:Hd; [|done].
  pose proof (get_diff_again _ _ seed' _ _ _ Hd) as Hd'. simpl.
  intros H.
  assert (c' = c1) as ->.
  { destruct (find_item (items cl) fp) as [it|].
    - destruct (action it); try (by inversion H).
      destruct (read_text w (joinpath (root c1) (Path_of fp))); by inversion H.
    - destruct (read_text w (joinpath (root c1) (Path_of fp))); by inversion H. }
  by rewrite Hd'.
Qed.

Lemma get_new_again (w : World) (seed seed' : list nat)
    (c c' : DiffFileClient) (fp s : string) :
  _get_new_file_content w seed c fp = Ok (s, c') →
  _get_new_file_content w seed' c' fp = Ok (s, c').
Proof.
  unfold _get_new_file_content.
  destruct (get_diff w seed c) as [[cl c1]|e] eqn:Hd; [|done].
  pose proof (get_diff_again _ _ seed' _ _ _ Hd) as Hd'. simpl.
  intros H.
  assert (c' = c1) as ->.
  { destruct (find_item (items cl) fp) as [it|]; [|by inversion H].
    destruct (action it); try (by inversion H).
    destruct (String.eqb _ _); by inversion H. }
  by rewrite Hd'.
Qed.

Lemma splitlines_line (l rest : string) :
  no_linebreak l → splitlines (l +:+ LF +:+ rest) = l :: splitlines rest.
Proof.
  induction l as [|c l IH]; intros Hl.
  - done.
  - destruct Hl as [Hc Hl]. simpl. rewrite Hc. by rewrite IH.
Qed.

Lemma splitlines_single (l : string) :
  no_linebreak l → l ≠ "" → splitlines l = [l].
Proof.
  induction l as [|c l IH]; intros Hl Hne; [done|].
  destruct Hl as [Hc Hl]. simpl. rewrite Hc.
  destruct l as [|c' l']; [done|]. by rewrite IH.
Qed.

Lemma splitlines_join (ls : list string) :
  Forall no_linebreak ls → last ls ≠ Some "" →
  splitlines (join LF ls) = ls.
Proof.
  induction 1 as [|l ls Hl Hls IH]; intros Hlast; [done|].
  destruct ls as [|l' ls'].
  - simpl. apply splitlines_single; [done|]. intros ->. by apply Hlast.
  - change (join LF (l :: l' :: ls')) with (l +:+ LF +:+ join LF (l' :: ls')).
    rewrite splitlines_line by done. f_equal. apply IH.
    by rewrite last_cons_cons in Hlast.
Qed.


Lemma lower_empty (s : string) : lower s = "" ↔ s = "".
Proof. by destruct s. Qed.

Lemma is_new_revision_spec (revision : string) :
  is_new_revision revision = true ↔ asks_new_side revision.
Proof. unfold is_new_revision, asks_new_side. apply bool_decide_eq_true. Qed.

Lemma is_new_revision_false (revision : string) :
  is_new_revision revision = false ↔ ¬ asks_new_side revision.
Proof. unfold is_new_revision, asks_new_side. apply bool_decide_eq_false. Qed.


Lemma retest_all_fallback_result (selection_failure : string) (e : exn)
    (o : OutDir) :
  ∃ o', retest_all_fallback selection_failure e o = (o', Ok tt)
        ∧ retest_all_result selection_failure o'
        ∧ events o' = events o.
Proof.
  eexists. split; [reflexivity|]. split; [|reflexivity].
  unfold retest_all_result. simpl. repeat split.
  - do 2 rewrite lookup_insert_ne by done. by rewrite lookup_insert_eq.
  - rewrite lookup_insert_ne by done. by rewrite lookup_insert_eq.
  - by rewrite lookup_insert_eq.
Qed.

Lemma retest_all_result_log_event (selection_failure ev : string)
    (o o' : OutDir) (r : result unit) :
  retest_all_result selection_failure o →
  log_event ev o = (o', r) →
  r = Ok tt ∧ retest_all_result selection_failure o'.
Proof. intros H [= <- <-]. done. Qed.

(* ===================================================================== *)
(** * Facts about test identifiers *)
(* ===================================================================== *)

Lemma prefix_cons_ne (a b : ascii) (p s : string) :
  a ≠ b → String.prefix (String a p) (String b s) = false.
Proof.
  intros Hne.
  change (String.prefix (String a p) (String b s))
    with (if ascii_dec a b then String.prefix p s else false).
  by destruct (ascii_dec a b).
Qed.

Lemma prefix_cons_eq (a : ascii) (p s : string) :
  String.prefix (String a p) (String a s) = String.prefix p s.
Proof.
  change (String.prefix (String a p) (String a s))
    with (if ascii_dec a a then String.prefix p s else false).
  by destruct (ascii_dec a a).
Qed.

Lemma prefix_empty (s : string) : String.prefix "" s = true.
Proof. by destruct s. Qed.

Lemma split_go_nonempty (sep : string) (k : nat) (s : string) :
  split_go sep k s ≠ [].
Proof.
  revert k. induction s as [|c s IH]; intros k; [done|]. cbn [split_go].
  destruct k; [|apply IH].
  destruct (String.prefix sep (String c s)); [done|].
  specialize (IH 0%nat). by destruct (split_go sep 0 s).
Qed.

(** The parts of [p +:+ s] when [p] holds no [!]: [p] goes in front of
    the first part of [s]. *)
Lemma split_bang_free (p s : string) :
  bang_free p →
  split "!!!" (p +:+ s)
  = match split "!!!" s with
    | [] => [p]
    | l :: ls => (p +:+ l) :: ls
    end.
Proof.
  unfold split. induction p as [|c p IH]; intros Hp.
  - change ("" +:+ s) with s.
    pose proof (split_go_nonempty "!!!" 0 s).
    by destruct (split_go "!!!" 0 s).
  - destruct Hp as [Hc Hp].
    change (String c p +:+ s) with (String c (p +:+ s)).
    cbn [split_go].
    assert (String.prefix "!!!" (String c (p +:+ s)) = false) as ->.
    { by apply prefix_cons_ne. }
    rewrite IH by done.
    pose proof (split_go_nonempty "!!!" 0 s).
    by destruct (split_go "!!!" 0 s).
Qed.

Lemma split_separator (s : string) :
  split "!!!" ("!!!" +:+ s) = "" :: split "!!!" s.
Proof.
  unfold split.
  change ("!!!" +:+ s) with (String "!" (String "!" (String "!" s))).
  cbn [split_go]. rewrite !prefix_cons_eq, prefix_empty. reflexivity.
Qed.

Lemma append_empty_r (s : string) : s +:+ "" = s.
Proof.
  induction s as [|c s IH]; [done|].
  change (String c s +:+ "") with (String c (s +:+ "")). by rewrite IH.
Qed.

Lemma append_assoc (a b c : string) : (a +:+ b) +:+ c = a +:+ b +:+ c.
Proof.
  induction a as [|x a IH]; [done|].
  change ((String x a +:+ b) +:+ c) with (String x ((a +:+ b) +:+ c)).
  by rewrite IH.
Qed.

(** Splitting an identifier gives back its parts. *)
Lemma split_test_id (parts : list string) :
  parts ≠ [] → Forall bang_free parts →
  split "!!!" (test_id parts) = parts.
Proof.
  intros Hne Hparts. induction Hparts as [|p ps Hp Hps IH]; [done|].
  destruct ps as [|q ps].
  - unfold test_id. simpl.
    rewrite <- (append_empty_r p) at 1. rewrite split_bang_free by done.
    simpl. by rewrite append_empty_r.
  - change (test_id (p :: q :: ps))
      with (p +:+ "!!!" +:+ test_id (q :: ps)).
    rewrite split_bang_free by done. rewrite split_separator.
    rewrite IH by done. by rewrite append_empty_r.
Qed.

Lemma append_cons (c : ascii) (p s : string) :
  String c p +:+ s = String c (p +:+ s).
Proof. reflexivity. Qed.

Lemma append_nil (s : string) : "" +:+ s = s.
Proof. reflexivity. Qed.

Lemma span_not_bang_bang_free (q s : string) :
  bang_free q → (s = "" ∨ ∃ r, s = String "!" r) →
  span_not_bang (q +:+ s) = (q, s).
Proof.
  intros Hq Hs. induction q as [|c q IH].
  - rewrite append_nil. by destruct Hs as [->|[r ->]].
  - destruct Hq as [Hc Hq]. rewrite append_cons. cbn [span_not_bang].
    destruct (Ascii.eqb_spec c "!"); [done|]. by rewrite IH.
Qed.

Lemma strip_prefix_star_bang (p s r : string) :
  bang_free p → strip_prefix "*!!!" (p +:+ "!!!" +:+ s) = Some r →
  p = "*" ∧ r = s.
Proof.
  intros Hp. destruct p as [|c p].
  - rewrite append_nil. by cbv.
  - rewrite append_cons. cbn [strip_prefix].
    destruct (Ascii.eqb_spec "*" c) as [<-|]; [|done].
    destruct p as [|c' p].
    + rewrite append_nil. cbv. by intros [= ->].
    + destruct Hp as [_ [Hc' _]]. rewrite append_cons. cbn [strip_prefix].
      destruct (Ascii.eqb_spec "!" c') as [<-|]; done.
Qed.

Lemma strip_prefix_bang_free (p r : string) :
  bang_free p → strip_prefix "*!!!" p = Some r → False.
Proof.
  intros Hp. destruct p as [|c p]; [done|]. cbn [strip_prefix].
  destruct (Ascii.eqb_spec "*" c) as [<-|]; [|done].
  destruct p as [|c' p]; [done|].
  destruct Hp as [_ [Hc' _]]. cbn [strip_prefix].
  destruct (Ascii.eqb_spec "!" c') as [<-|]; done.
Qed.

(** When the pattern of the CTest conversion matches an identifier, its
    group is the second part. *)
Lemma ctest_match_test_id (parts : list string) (n : string) :
  Forall bang_free parts →
  ctest_match (test_id parts) = Some n →
  ctest_entry parts = [n].
Proof.
  intros Hparts. unfold ctest_match.
  destruct parts as [|p [|q ps]].
  - done.
  - apply Forall_cons in Hparts as [Hp _]. change (test_id [p]) with p.
    destruct (strip_prefix "*!!!" p) as [r|] eqn:Hr;
      cbn [mbind option_bind]; [|done].
    by destruct (strip_prefix_bang_free _ _ Hp Hr).
  - apply Forall_cons in Hparts as [Hp [Hq Hps]%Forall_cons].
    change (test_id (p :: q :: ps))
      with (p +:+ "!!!" +:+ test_id (q :: ps)).
    destruct (strip_prefix "*!!!" (p +:+ "!!!" +:+ test_id (q :: ps)))
      as [r|] eqn:Hr; cbn [mbind option_bind]; [|done].
    destruct (strip_prefix_star_bang _ _ _ Hp Hr) as [-> ->].
    assert (∃ s, test_id (q :: ps) = q +:+ s
                 ∧ (s = "" ∨ ∃ r, s = String "!" r)) as (s & Hs & Hs').
    { destruct ps as [|q' ps].
      - exists "". change (test_id [q]) with q.
        rewrite append_empty_r. auto.
      - exists ("!!!" +:+ test_id (q' :: ps)). split; [done|].
        right. by eexists. }
    rewrite Hs, span_not_bang_bang_free by done.
    destruct q as [|c q]; [done|].
    destruct (strip_prefix "!!!*" s); cbn [mbind option_bind]; [|done].
    by intros [= <-].
Qed.

Lemma gtest_step_test_id (filters : list string) (line : string)
    (parts : list string) :
  strip line = test_id parts → parts ≠ [] → Forall bang_free parts →
  gtest_step filters line = filters ++ gtest_entry parts.
Proof.
  intros Hline Hne Hparts. unfold gtest_step. rewrite Hline.
  destruct (String.eqb_spec (test_id parts) "") as [He|He].
  - pose proof (split_test_id parts Hne Hparts) as Hs. rewrite He in Hs.
    rewrite <- Hs. simpl. by rewrite app_nil_r.
  - rewrite split_test_id by done. unfold gtest_entry.
    destruct parts as [|? [|? [|? ?]]]; by rewrite ?app_nil_r.
Qed.

Lemma ctest_step_test_id (filters : list string) (line : string)
    (parts : list string) :
  strip line = test_id parts → parts ≠ [] → Forall bang_free parts →
  ctest_step filters line = filters ++ ctest_entry parts.
Proof.
  intros Hline Hne Hparts. unfold ctest_step. rewrite Hline.
  destruct (String.eqb_spec (test_id parts) "") as [He|He].
  - pose proof (split_test_id parts Hne Hparts) as Hs. rewrite He in Hs.
    rewrite <- Hs. simpl. by rewrite app_nil_r.
  - destruct (ctest_match (test_id parts)) as [n|] eqn:Hm.
    + by rewrite (ctest_match_test_id _ _ Hparts Hm).
    + rewrite split_test_id by done. unfold ctest_entry.
      destruct parts as [|? [|? ?]]; by rewrite ?app_nil_r.
Qed.

Lemma step_foldl_entries (step : list string → string → list string)
    (entry : list string → list string)
    (lines : list string) (ids : list (list string)) (filters : list string) :
  (∀ filters line parts,
     strip line = test_id parts → parts ≠ [] → Forall bang_free parts →
     step filters line = filters ++ entry parts) →
  Forall2 (λ line parts, strip line = test_id parts ∧ parts ≠ []
                         ∧ Forall bang_free parts) lines ids →
  foldl step filters lines = filters ++ (ids ≫= entry).
Proof.
  intros Hstep Hall. revert filters.
  induction Hall as [|line parts lines ids (Hl & Hne & Hp) _ IH];
    intros filters.
  - simpl. by rewrite app_nil_r.
  - cbn [foldl]. rewrite (Hstep _ _ parts) by done. rewrite IH.
    by rewrite <- app_assoc.
Qed.
(* ===================================================================== *)
(** * Hunk application: order and splice *)
(* ===================================================================== *)

(** C3: the code fails the claim at a hunk that starts at line 0, as a
    diff without context lines writes it for a line put in front of the
    first line ([@@ -0,0 +1 @@]).  The claim puts the span in place of the
    empty range in front of the first line; the code takes the bound
    [0 - 1] of its slices from the end of the buffer and puts the span in
    front of the last line.  So the new side of [f.c], whose old content
    is the lines [a], [b], comes out as [a], [X], [b].  Reverse
    application does the same with a new start of 0. *)
Theorem start_zero_hunk_goes_before_last_line :
  let h := mkHunk 0 0 1 1 ["+X"] in
  let h' := mkHunk 1 1 0 0 ["-X"] in
  (∃ c1,
     get_file_content_at_revision top_insert_world [] top_insert_client
       "new" (Path_of "f.c")
     = Ok ("a" +:+ LF +:+ "X" +:+ LF +:+ "b", c1)
     ∧ _parse_hunks <$> _file_diffs c1 !! "f.c" = Some [h])
  ∧ _forward_apply_hunk ["a"; "b"] h = ["a"; "X"; "b"]
  ∧ spec_splice ["a"; "b"] (old_start h - 1) (old_start h - 1 + old_count h)
                (spec_forward_span h)
    = ["X"; "a"; "b"]
  ∧ _reverse_apply_hunk ["a"; "b"] h' = ["a"; "X"; "b"]
  ∧ spec_splice ["a"; "b"] (new_start h' - 1)
                (new_start h' - 1 + new_count h') (spec_reverse_span h')
    = ["X"; "a"; "b"].
Proof.
  split; [|by vm_compute].
  eexists. split; vm_compute; reflexivity.
Qed.

(* ===================================================================== *)
(** * Round trip *)
(* ===================================================================== *)

(** C2, as stated, fails: a file that ends with a line feed does not come
    back from a reverse followed by a forward application. *)
Lemma round_trip_loses_final_newline :
  let c := mkClient (Path_of "/repo") None "new" None None
                    {[ "f" := "@@ -1,2 +1,2 @@" +:+ LF +:+ "-A" +:+ LF +:+
                               "+A2" +:+ LF +:+ " B" ]} in
  let content := "A2" +:+ LF +:+ "B" +:+ LF in
  _reverse_apply_diff c "f" content = "A" +:+ LF +:+ "B"
  ∧ _forward_apply_diff c "f" (_reverse_apply_diff c "f" content)
    = "A2" +:+ LF +:+ "B"
  ∧ _forward_apply_diff c "f" (_reverse_apply_diff c "f" content) ≠ content.
Proof. vm_compute. repeat split; discriminate. Qed.

(** C2, amended: when the hunks of the file describe the change from the
    old lines to the new lines, reverse application to the new lines gives
    the old lines and forward application to the old lines gives the new
    lines; on the text of the file the round trip returns the new content
    with its lines joined by single line feeds (no final line feed), as
    long as the old lines hold no line boundary and do not end with an
    empty line.  The two-hunk scenario holds as stated. *)
Theorem round_trip_on_lines
    (c : DiffFileClient) (fp diff_section content : string)
    (old : list string) :
  _file_diffs c !! fp = Some diff_section →
  describes 0 0 (_parse_hunks diff_section) old (splitlines content) →
  Forall no_linebreak old → last old ≠ Some "" →
  reverse_apply_hunks (_parse_hunks diff_section) (splitlines content) = old
  ∧ forward_apply_hunks (_parse_hunks diff_section) old = splitlines content
  ∧ _reverse_apply_diff c fp content = join LF old
  ∧ _forward_apply_diff c fp (_reverse_apply_diff c fp content)
    = join LF (splitlines content)
  ∧ forward_apply_hunks (_parse_hunks two_hunk_section)
                        ["A"; "B"; "C"; "D"; "E"]
    = ["A2"; "B"; "C"; "D2"; "E"]
  ∧ reverse_apply_hunks (_parse_hunks two_hunk_section)
                        ["A2"; "B"; "C"; "D2"; "E"]
    = ["A"; "B"; "C"; "D"; "E"].
Proof.
  intros Hfd Hd Hold Hlast.
  pose proof (reverse_describes _ _ _ _ _ Hd [] eq_refl) as Hrev.
  pose proof (forward_describes _ _ _ _ _ Hd [] eq_refl) as Hfwd.
  simpl in Hrev, Hfwd.
  assert (_reverse_apply_diff c fp content = join LF old) as Hr.
  { unfold _reverse_apply_diff. by rewrite Hfd, Hrev. }
  repeat split; try done.
  rewrite Hr. unfold _forward_apply_diff. rewrite Hfd.
  by rewrite splitlines_join, Hfwd.
Qed.

Lemma round_trip_on_lines_witness :
  _forward_apply_diff (two_hunk_client "new") "f"
    (_reverse_apply_diff (two_hunk_client "new") "f"
       ("A2" +:+ LF +:+ "B" +:+ LF +:+ "C" +:+ LF +:+ "D2" +:+ LF +:+ "E" +:+ LF))
  = "A2" +:+ LF +:+ "B" +:+ LF +:+ "C" +:+ LF +:+ "D2" +:+ LF +:+ "E".
Proof.
  destruct (round_trip_on_lines (two_hunk_client "new") "f" two_hunk_section
              ("A2" +:+ LF +:+ "B" +:+ LF +:+ "C" +:+ LF +:+ "D2" +:+ LF +:+ "E" +:+ LF)
              ["A"; "B"; "C"; "D"; "E"])
    as (_ & _ & _ & H & _).
  - reflexivity.
  - apply (describes_cons 0 0 (mkHunk 1 1 1 1 ["-A"; "+A2"])
             [mkHunk 4 1 4 1 ["-D"; "+D2"]] []
             ["B"; "C"; "D"; "E"] ["B"; "C"; "D2"; "E"]);
      [reflexivity ..|].
    apply (describes_cons 1 1 (mkHunk 4 1 4 1 ["-D"; "+D2"]) []
             ["B"; "C"] ["E"] ["E"]); [reflexivity ..|].
    apply describes_nil.
  - repeat constructor; discriminate.
  - discriminate.
  - exact H.
Defined.
(* ===================================================================== *)
(** * Hunk parsing *)
(* ===================================================================== *)

(** C7, as stated, fails: a line without tag does not end the collection;
    the [+] line after it is still part of the hunk. *)
Lemma untagged_line_does_not_end_hunk :
  _parse_hunks gap_section = [mkHunk 1 1 1 2 ["+a"; "+b"]]
  ∧ spec_parse_hunks_lines (splitlines gap_section)
    = [mkHunk 1 1 1 2 ["+a"]]
  ∧ _parse_hunks gap_section
    ≠ spec_parse_hunks_lines (splitlines gap_section).
Proof. vm_compute. repeat split; discriminate. Qed.

(** C7, amended: the lines of a hunk are the lines between its header and
    the next hunk header (or the end of the section) that begin with [+],
    [-], a space or a backslash, in their order; every other line in
    between is passed over and the collection goes on after it. *)
Theorem hunk_lines_are_tagged_lines_up_to_next_header
    (diff_section : string) (pre body rest : list string) (hdr : string)
    (os oc ns nc : Z) :
  splitlines diff_section = pre ++ hdr :: body ++ rest →
  hunk_match hdr = Some (os, oc, ns, nc) →
  Forall (λ l, hunk_match l = None) body →
  (rest = [] ∨ ∃ l r, rest = l :: r ∧ is_Some (hunk_match l)) →
  _parse_hunks diff_section
  = parse_hunks_lines pre
    ++ [mkHunk os oc ns nc (filter (λ l, is_hunk_line l) body)]
    ++ parse_hunks_lines rest.
Proof.
  intros Hsplit Hhdr Hbody Hrest. unfold _parse_hunks. rewrite Hsplit.
  by apply parse_hunks_collects.
Qed.

Lemma hunk_lines_are_tagged_lines_up_to_next_header_witness :
  _parse_hunks gap_section = [mkHunk 1 1 1 2 ["+a"; "+b"]].
Proof.
  apply (hunk_lines_are_tagged_lines_up_to_next_header
           gap_section [] ["+a"; "index"; "+b"] [] "@@ -1 +1,2 @@" 1 1 1 2).
  - reflexivity.
  - reflexivity.
  - repeat constructor.
  - left. reflexivity.
Defined.

(* ===================================================================== *)
(** * The change list *)
(* ===================================================================== *)

(** C5: for a header line of the diff text, the change list holds the item
    of its path whose action is read off the next line alone: ADDED if
    that line contains [new file mode], else DELETED if it contains
    [deleted file mode], else (or without a next line) MODIFIED; and every
    item of the change list comes from a header in this way. *)
Theorem action_read_off_next_line
    (w : World) (seed : list nat) (c c1 : DiffFileClient) (text : string)
    (idx : nat) (line fp : string) :
  _changelist c = None → diff_content w c = Ok (text, c1) →
  splitlines text !! idx = Some line →
  startswith line "diff --git" = true → diff_match line = Some fp →
  ∃ cl c' a,
    get_diff w seed c = Ok (cl, c')
    ∧ mkItem (Path_of fp) a ∈ items cl
    ∧ a = match splitlines text !! S idx with
          | Some next_line =>
              if contains "new file mode" next_line then ADDED
              else if contains "deleted file mode" next_line then DELETED
              else MODIFIED
          | None => MODIFIED
          end
    ∧ ∀ it, it ∈ items cl →
            ∃ i l, splitlines text !! i = Some l
                   ∧ header_item (splitlines text) i l = Some it.
Proof.
  intros Hc Ht Hline Hstart Hmatch.
  destruct (get_diff_fresh_items w seed c c1 text Hc Ht) as (cl & c' & Hg & Hit).
  exists cl, c', (action_after (splitlines text !! S idx)).
  split; [done|]. split; [|split; [done|]].
  - apply Hit. exists idx, line. split; [done|].
    unfold header_item. by rewrite Hstart, Hmatch.
  - intros it Hin. by apply Hit.
Qed.

Lemma action_read_off_next_line_witness :
  ∃ cl c' a,
    get_diff three_files_world [] (three_files_client "old") = Ok (cl, c')
    ∧ mkItem (Path_of "new.c") a ∈ items cl ∧ a = ADDED.
Proof.
  destruct (action_read_off_next_line three_files_world []
              (three_files_client "old") (three_files_client "old")
              three_files_diff 7 "diff --git a/new.c b/new.c" "new.c")
    as (cl & c' & a & Hg & Hin & Ha & _); try reflexivity.
  exists cl, c', a. split; [exact Hg|]. split; [exact Hin|].
  rewrite Ha. reflexivity.
Defined.

(** Whatever the order of the items, the change list of [twice_diff]
    holds the path [x] with two actions. *)
Lemma twice_diff_two_actions (seed : list nat) :
  ∃ cl c',
    get_diff (mkWorld ∅) seed twice_client = Ok (cl, c')
    ∧ mkItem (Path_of "x") ADDED ∈ items cl
    ∧ mkItem (Path_of "x") DELETED ∈ items cl
    ∧ ¬ one_action_per_path cl.
Proof.
  destruct (get_diff_fresh_items (mkWorld ∅) seed twice_client twice_client
              twice_diff eq_refl eq_refl) as (cl & c' & Hg & Hit).
  assert (mkItem (Path_of "x") ADDED ∈ items cl) as Ha.
  { apply Hit. by exists 0%nat, "diff --git a/x b/x". }
  assert (mkItem (Path_of "x") DELETED ∈ items cl) as Hd.
  { apply Hit. by exists 2%nat, "diff --git a/x b/x". }
  exists cl, c'. repeat split; try done.
  intros Hinv. by specialize (Hinv _ _ Ha Hd eq_refl).
Qed.

(** C6, as stated, fails: a diff text that names a path twice, with
    different lines after the two headers, gives a change list that holds
    the path with two actions. *)
Lemma path_with_two_actions :
  ∃ cl c',
    get_diff (mkWorld ∅) [] twice_client = Ok (cl, c')
    ∧ mkItem (Path_of "x") ADDED ∈ items cl
    ∧ mkItem (Path_of "x") DELETED ∈ items cl
    ∧ ¬ one_action_per_path cl.
Proof. apply twice_diff_two_actions. Qed.

(** C6, amended: the change list holds one item for each pair of a path
    and an action that a header of the diff text gives; no path has two
    different actions in it exactly when all the headers that name the
    same path give the same action (as in a diff that names each path
    once). *)
Theorem one_action_per_path_iff_headers_agree
    (w : World) (seed : list nat) (c c1 : DiffFileClient) (text : string) :
  _changelist c = None → diff_content w c = Ok (text, c1) →
  ∃ cl c',
    get_diff w seed c = Ok (cl, c')
    ∧ NoDup (items cl)
    ∧ (one_action_per_path cl
       ↔ ∀ i1 l1 it1 i2 l2 it2,
           splitlines text !! i1 = Some l1 →
           header_item (splitlines text) i1 l1 = Some it1 →
           splitlines text !! i2 = Some l2 →
           header_item (splitlines text) i2 l2 = Some it2 →
           filepath it1 = filepath it2 → action it1 = action it2).
Proof.
  intros Hc Ht.
  destruct (get_diff_fresh_items w seed c c1 text Hc Ht) as (cl & c' & Hg & Hit).
  exists cl, c'. split; [done|]. split.
  - pose proof (get_diff_fresh w seed c c1 text Hc Ht) as Hg'.
    simpl in Hg'. rewrite Hg' in Hg. injection Hg as <- _. simpl.
    rewrite set_order_perm. apply NoDup_elements.
  - unfold one_action_per_path. split.
    + intros Hinv i1 l1 it1 i2 l2 it2 H1 Hh1 H2 Hh2.
      apply Hinv; apply Hit; eauto.
    + intros Hagree it1 it2 (i1 & l1 & H1 & Hh1)%Hit (i2 & l2 & H2 & Hh2)%Hit.
      by apply (Hagree i1 l1 it1 i2 l2 it2).
Qed.

Lemma one_action_per_path_iff_headers_agree_witness :
  ∃ cl c',
    get_diff three_files_world [] (three_files_client "old") = Ok (cl, c')
    ∧ NoDup (items cl).
Proof.
  destruct (one_action_per_path_iff_headers_agree three_files_world []
              (three_files_client "old") (three_files_client "old")
              three_files_diff) as (cl & c' & Hg & Hnd & _);
    [reflexivity | reflexivity |].
  exists cl, c'. split; [exact Hg | exact Hnd].
Defined.
(* ===================================================================== *)
(** * Content of a file on either side *)
(* ===================================================================== *)

(** C4, as stated, fails: the diff text names [x] as a new file and then
    as a deleted file, so [x] is in the change list with the action
    ADDED; the item with DELETED comes first in the listing, and the old
    side of [x] is the content that the deleting patch removes. *)
Lemma added_path_old_side_not_empty :
  ∃ cl c1 c2,
    get_diff (mkWorld ∅) [] added_deleted_client = Ok (cl, c1)
    ∧ mkItem (Path_of "x") ADDED ∈ items cl
    ∧ _get_old_file_content (mkWorld ∅) [] added_deleted_client "x"
      = Ok ("hello", c2)
    ∧ get_file_content_at_revision (mkWorld ∅) [] added_deleted_client
        "old" (Path_of "x")
      = Ok ("hello", c2).
Proof.
  eexists _, _, _. split; [vm_compute; reflexivity|].
  split; [|split; vm_compute; reflexivity].
  apply elem_of_cons. right. apply elem_of_cons. by left.
Qed.

(** C4, amended: with the change list parsed, the old side of a path that
    is in the change list with the action ADDED and no other action is
    the empty string, the new side of a path that is in it with the
    action DELETED and no other action is the empty string, and either
    side of a path that is not in the change list is the content on disk,
    which is the empty string for a file that is not there. *)
Theorem content_boundary_cases
    (w : World) (seed : list nat) (c c1 : DiffFileClient) (cl : Changelist) :
  get_diff w seed c = Ok (cl, c1) →
  (∀ fp, has_action cl fp ADDED →
         _get_old_file_content w seed c fp = Ok ("", c1))
  ∧ (∀ fp, has_action cl fp DELETED →
           _get_new_file_content w seed c fp = Ok ("", c1))
  ∧ (∀ fp, absent cl fp →
           _get_old_file_content w seed c fp
           = Ok (_read_file_from_disk w c1 (Path_of fp), c1)
           ∧ _get_new_file_content w seed c fp
             = Ok (_read_file_from_disk w c1 (Path_of fp), c1))
  ∧ (∀ p, read_text w (joinpath (root c1) p) = None →
          _read_file_from_disk w c1 p = "")
  ∧ (∀ p text, read_text w (joinpath (root c1) p) = Some text →
               _read_file_from_disk w c1 p = text).
Proof.
  intros Hg. repeat split.
  - intros fp (it & Hf & Ha)%find_item_has_action.
    unfold _get_old_file_content. rewrite Hg. simpl. by rewrite Hf, Ha.
  - intros fp (it & Hf & Ha)%find_item_has_action.
    unfold _get_new_file_content. rewrite Hg. simpl. by rewrite Hf, Ha.
  - apply find_item_None in H.
    unfold _get_old_file_content, _read_file_from_disk. rewrite Hg. simpl.
    rewrite H. by destruct (read_text _ _).
  - apply find_item_None in H.
    unfold _get_new_file_content. rewrite Hg. simpl. by rewrite H.
  - intros p Hp. unfold _read_file_from_disk. by rewrite Hp.
  - intros p text Hp. unfold _read_file_from_disk. by rewrite Hp.
Qed.

Lemma content_boundary_cases_witness :
  (∃ c1, _get_old_file_content three_files_world []
           (three_files_client "new") "new.c" = Ok ("", c1))
  ∧ (∃ c1, _get_new_file_content three_files_world []
             (three_files_client "old") "gone.c" = Ok ("", c1))
  ∧ (∃ c1, _get_old_file_content three_files_world []
             (three_files_client "new") "other.c" = Ok ("o" +:+ LF, c1))
  ∧ (∃ c1, _get_new_file_content three_files_world []
             (three_files_client "old") "other.c" = Ok ("o" +:+ LF, c1))
  ∧ (∃ c1, _get_new_file_content three_files_world []
             (three_files_client "old") "nowhere.c" = Ok ("", c1)).
Proof.
  destruct (get_diff three_files_world [] (three_files_client "new"))
    as [[cl c1]|e] eqn:Hnew; [|discriminate Hnew].
  destruct (get_diff three_files_world [] (three_files_client "old"))
    as [[cl' c1']|e] eqn:Hold; [|discriminate Hold].
  destruct (content_boundary_cases _ _ _ _ _ Hnew) as (Hadd & _ & Habs & _).
  destruct (content_boundary_cases _ _ _ _ _ Hold) as (_ & Hdel & Habs' & _).
  vm_compute in Hnew. injection Hnew as <- <-.
  vm_compute in Hold. injection Hold as <- <-.
  repeat split; eexists.
  - apply Hadd. split.
    + eexists. split; [apply elem_of_cons; right; apply elem_of_cons; left; reflexivity | reflexivity].
    + intros it Hin Hp.
      repeat (apply elem_of_cons in Hin as [->|Hin]; [try discriminate Hp; try reflexivity|]).
      by apply elem_of_nil in Hin.
  - apply Hdel. split.
    + eexists. split; [apply elem_of_cons; left; reflexivity | reflexivity].
    + intros it Hin Hp.
      repeat (apply elem_of_cons in Hin as [->|Hin]; [try discriminate Hp; try reflexivity|]).
      by apply elem_of_nil in Hin.
  - etransitivity; [apply Habs|reflexivity].
    intros it Hin Hp.
    repeat (apply elem_of_cons in Hin as [->|Hin]; [discriminate Hp|]).
    by apply elem_of_nil in Hin.
  - etransitivity; [apply Habs'|reflexivity].
    intros it Hin Hp.
    repeat (apply elem_of_cons in Hin as [->|Hin]; [discriminate Hp|]).
    by apply elem_of_nil in Hin.
  - etransitivity; [apply Habs'|reflexivity].
    intros it Hin Hp.
    repeat (apply elem_of_cons in Hin as [->|Hin]; [discriminate Hp|]).
    by apply elem_of_nil in Hin.
Defined.

(** C8: parsing and content reconstruction give the same result when they
    are called again on the client as the first call left it, with the
    same files on disk and whatever the order in which a set is listed:
    the change list is the same, and so is the content of a path on a
    side. *)
Theorem repeated_calls_agree
    (w : World) (seed seed' : list nat) (c : DiffFileClient) :
  (∀ cl c', get_diff w seed c = Ok (cl, c') →
            get_diff w seed' c' = Ok (cl, c'))
  ∧ (∀ revision fp s c',
       get_file_content_at_revision w seed c revision fp = Ok (s, c') →
       get_file_content_at_revision w seed' c' revision fp = Ok (s, c')).
Proof.
  split.
  - intros cl c'. apply get_diff_again.
  - intros revision fp s c'. unfold get_file_content_at_revision.
    destruct (if is_absolute fp then relative_to fp (root c) else Ok fp)
      as [fp1|e] eqn:Hfp; [|done].
    simpl. intros H.
    assert (root c' = root c ∧ repo_state c' = repo_state c) as [Hr Hs].
    { destruct (String.eqb (repo_state c) "new"),
               (is_new_revision revision).
      - by injection H as _ <-.
      - unfold _get_old_file_content in H.
        destruct (get_diff w seed c) as [[cl c1]|] eqn:Hg; [|done].
        apply get_diff_cached in Hg as (_ & <- & <-). simpl in H.
        destruct (find_item _ _) as [it|].
        + destruct (action it); try (by injection H as _ <-).
          destruct (read_text _ _); by injection H as _ <-.
        + destruct (read_text _ _); by injection H as _ <-.
      - unfold _get_new_file_content in H.
        destruct (get_diff w seed c) as [[cl c1]|] eqn:Hg; [|done].
        apply get_diff_cached in Hg as (_ & <- & <-). simpl in H.
        destruct (find_item _ _) as [it|]; [|by injection H as _ <-].
        destruct (action it); try (by injection H as _ <-).
        destruct (String.eqb _ _); by injection H as _ <-.
      - by injection H as _ <-. }
    rewrite Hr, Hfp, Hs. simpl.
    destruct (String.eqb (repo_state c) "new"), (is_new_revision revision).
    + by injection H as <- <-.
    + by apply (get_old_again w seed seed' c).
    + by apply (get_new_again w seed seed' c).
    + by injection H as <- <-.
Qed.

(** C10: a revision asks for the new side exactly when its lower-case form
    is [head], [new], [to] or the empty string, and every other revision
    asks for the old side.  With a repository state [new] the new side is
    the content on disk and the old side is reconstructed; with any other
    repository state the old side is the content on disk and the new side
    is reconstructed. *)
Theorem revision_side_dispatch
    (w : World) (seed : list nat) (c : DiffFileClient)
    (revision : string) (fp fp1 : Path) :
  (if is_absolute fp then relative_to fp (root c) else Ok fp) = Ok fp1 →
  (is_new_revision revision = true
   ↔ lower revision = "head" ∨ lower revision = "new"
     ∨ lower revision = "to" ∨ revision = "")
  ∧ (repo_state c = "new" → asks_new_side revision →
     get_file_content_at_revision w seed c revision fp
     = Ok (_read_file_from_disk w c fp1, c))
  ∧ (repo_state c = "new" → ¬ asks_new_side revision →
     get_file_content_at_revision w seed c revision fp
     = _get_old_file_content w seed c (item_path (mkItem fp1 MODIFIED)))
  ∧ (repo_state c ≠ "new" → asks_new_side revision →
     get_file_content_at_revision w seed c revision fp
     = _get_new_file_content w seed c (item_path (mkItem fp1 MODIFIED)))
  ∧ (repo_state c ≠ "new" → ¬ asks_new_side revision →
     get_file_content_at_revision w seed c revision fp
     = Ok (_read_file_from_disk w c fp1, c)).
Proof.
  intros Hfp. split.
  { rewrite is_new_revision_spec. unfold asks_new_side.
    rewrite !elem_of_cons, elem_of_nil, lower_empty. tauto. }
  unfold get_file_content_at_revision. rewrite Hfp. simpl.
  repeat split; intros Hs Hn.
  - apply is_new_revision_spec in Hn. by rewrite Hs, Hn.
  - apply is_new_revision_false in Hn. by rewrite Hs, Hn.
  - apply is_new_revision_spec in Hn.
    apply String.eqb_neq in Hs. by rewrite Hs, Hn.
  - apply is_new_revision_false in Hn.
    apply String.eqb_neq in Hs. by rewrite Hs, Hn.
Qed.

Lemma revision_side_dispatch_witness :
  (∃ c', get_file_content_at_revision three_files_world []
           (three_files_client "new") "HEAD" (Path_of "/repo/src/f.c")
         = Ok ("A2" +:+ LF +:+ "B" +:+ LF, c'))
  ∧ (∃ c', get_file_content_at_revision three_files_world []
             (three_files_client "new") "from" (Path_of "src/f.c")
           = Ok ("A" +:+ LF +:+ "B", c')).
Proof.
  destruct (revision_side_dispatch three_files_world []
              (three_files_client "new") "HEAD" (Path_of "/repo/src/f.c")
              (Path_of "src/f.c") eq_refl) as (_ & H1 & _).
  destruct (revision_side_dispatch three_files_world []
              (three_files_client "new") "from" (Path_of "src/f.c")
              (Path_of "src/f.c") eq_refl) as (_ & _ & H2 & _).
  split.
  - eexists. rewrite H1; [reflexivity | reflexivity |].
    unfold asks_new_side. simpl. apply elem_of_cons. left. reflexivity.
  - eexists. rewrite H2; [vm_compute; reflexivity | reflexivity |].
    unfold asks_new_side. simpl. intros Hin.
    repeat (apply elem_of_cons in Hin as [Hin|Hin]; [discriminate Hin|]).
    by apply elem_of_nil in Hin.
Defined.

Lemma repeated_calls_agree_witness :
  ∃ s c',
    get_file_content_at_revision three_files_world []
      (three_files_client "new") "old" (Path_of "src/f.c") = Ok (s, c')
    ∧ get_file_content_at_revision three_files_world [1; 2]%nat
        c' "old" (Path_of "src/f.c") = Ok (s, c')
    ∧ s = "A" +:+ LF +:+ "B".
Proof.
  eexists _, _. split; [vm_compute; reflexivity|]. split.
  - apply (proj2 (repeated_calls_agree three_files_world [] [1; 2]%nat
                    (three_files_client "new")) "old" (Path_of "src/f.c")).
    vm_compute. reflexivity.
  - vm_compute. reflexivity.
Defined.

(* ===================================================================== *)
(** * The fallback of a selection run *)
(* ===================================================================== *)

(** C1: when the [try] block of a selection run raises, the run ends
    normally and leaves the retest-all result in its output directory: the
    included tests are exactly [*], no test is excluded, and the causes
    are exactly [*] with the one cause SELECTION_FAILURE.  In particular
    this is so when the analysis [select_tests] raises. *)
Theorem selection_failure_gives_retest_all
    (selection_failure : string)
    (format_test_list : list string → bool → string)
    (CppFileLevelRTS CppFunctionLevelRTS : RTSConfiguration → result RTSAlgo)
    (SyscallFileLevelRTS : result RTSAlgo)
    (seed_included seed_excluded : list nat)
    (opts : SelectCommonOptions) (config : RTSConfiguration) (o : OutDir) :
  (∀ o1, log_event (RTS_START_EVENT +:+ "_" +:+ name_or_default config) o
         = (o1, Ok tt) →
         raises (_run_rts_body format_test_list CppFileLevelRTS
                   CppFunctionLevelRTS seed_included seed_excluded opts config) o1 →
         ∃ o', _run_rts selection_failure format_test_list CppFileLevelRTS
                 CppFunctionLevelRTS seed_included seed_excluded opts config o = (o', Ok tt)
               ∧ retest_all_result selection_failure o')
  ∧ (∀ o1 rts_algo,
       log_event (RTS_START_EVENT +:+ "_syscall") o = (o1, Ok tt) →
       SyscallFileLevelRTS = Ok rts_algo →
       raises (syscalls_body format_test_list seed_included seed_excluded opts
                 rts_algo) o1 →
       ∃ o', syscalls selection_failure format_test_list
               SyscallFileLevelRTS seed_included seed_excluded opts o = (o', Ok tt)
             ∧ retest_all_result selection_failure o')
  ∧ (∀ o1 rts_algo e,
       select_tests rts_algo (from_revision opts) (to_revision opts)
       = Raise e →
       raises (syscalls_body format_test_list seed_included seed_excluded opts
                 rts_algo) o1
       ∧ ((if file_level config then CppFileLevelRTS config
           else CppFunctionLevelRTS config) = Ok rts_algo →
          raises (_run_rts_body format_test_list CppFileLevelRTS
                    CppFunctionLevelRTS seed_included seed_excluded opts config) o1))
  ∧ read_test_ids ("*" +:+ LF) = ["*"]
  ∧ read_test_ids "" = [].
Proof.
  repeat split.
  - intros o1 Hstart (o2 & e & Hbody).
    destruct (retest_all_fallback_result selection_failure e o2)
      as (o3 & Hfb & Hres & _).
    eexists. unfold _run_rts, io_bind at 1. rewrite Hstart.
    unfold io_bind, try_except. rewrite Hbody, Hfb. split; [reflexivity|].
    done.
  - intros o1 rts_algo Hstart Halgo (o2 & e & Hbody).
    destruct (retest_all_fallback_result selection_failure e o2)
      as (o3 & Hfb & Hres & _).
    eexists. unfold syscalls, io_bind at 1. rewrite Hstart.
    unfold io_bind, lift, try_except. rewrite Halgo, Hbody, Hfb. done.
  - exists o1, e. unfold syscalls_body, io_bind, lift. by rewrite H.
  - intros Halgo. exists o1, e.
    unfold _run_rts_body, io_bind, lift. by rewrite Halgo, H.
Qed.
Lemma selection_failure_gives_retest_all_witness :
  let failing := mkRTSAlgo (λ _ _, Raise (OtherException "line span out of range")) in
  ∃ o',
    _run_rts "SELECTION_FAILURE" (λ l _, join LF l)
      (λ _, Ok failing) (λ _, Ok failing) [] []
      (mkSelectCommonOptions "old" "new" false)
      (mkRTSConfiguration "" false false false false false false 2)
      (mkOutDir ∅ []) = (o', Ok tt)
    ∧ retest_all_result "SELECTION_FAILURE" o'.
Proof.
  intros failing.
  destruct (selection_failure_gives_retest_all "SELECTION_FAILURE"
              (λ l _, join LF l) (λ _, Ok failing) (λ _, Ok failing)
              (Ok failing) [] []
              (mkSelectCommonOptions "old" "new" false)
              (mkRTSConfiguration "" false false false false false false 2)
              (mkOutDir ∅ [])) as (Hrun & _ & Hraise & _).
  eapply Hrun; [reflexivity|].
  eapply (proj2 (Hraise _ failing (OtherException "line span out of range")
                   eq_refl)).
  reflexivity.
Defined.
(* ===================================================================== *)
(** * Filter conversion *)
(* ===================================================================== *)

(** C9: for lines that are test identifiers up to surrounding white space,
    the GoogleTest filter holds [Suite.Case] for an identifier of three
    parts (or more), [Suite.*] for one of two parts and nothing for one
    of fewer parts, joined with [:]; the CTest filter holds the second
    part of an identifier of two parts or more, so [Name] for the wildcard
    identifier [*!!!Name!!!*], joined with [|].  The parts of an
    identifier hold no [!].  The two scenarios hold as stated. *)
Theorem filter_conversion (lines : list string) (ids : list (list string)) :
  Forall2 (λ line parts, strip line = test_id parts ∧ parts ≠ []
                         ∧ Forall bang_free parts) lines ids →
  _convert_gtest_filter lines = join ":" (ids ≫= gtest_entry)
  ∧ _convert_ctest_filter lines = join "|" (ids ≫= ctest_entry)
  ∧ (∀ m suite case, gtest_entry [m; suite; case] = [suite +:+ "." +:+ case])
  ∧ (∀ m suite, gtest_entry [m; suite] = [suite +:+ ".*"])
  ∧ (∀ m, gtest_entry [m] = [])
  ∧ (∀ name, ctest_entry ["*"; name; "*"] = [name])
  ∧ _convert_gtest_filter
      ["mod!!!SuiteA!!!Case1" +:+ LF; "mod!!!SuiteB!!!Case2"]
    = "SuiteA.Case1:SuiteB.Case2"
  ∧ _convert_ctest_filter ["*!!!TestX!!!*"] = "TestX".
Proof.
  intros Hall. repeat split.
  - unfold _convert_gtest_filter.
    by rewrite (step_foldl_entries gtest_step gtest_entry lines ids []
                  gtest_step_test_id Hall).
  - unfold _convert_ctest_filter.
    by rewrite (step_foldl_entries ctest_step ctest_entry lines ids []
                  ctest_step_test_id Hall).
Qed.

Lemma filter_conversion_witness :
  _convert_gtest_filter
    ["mod!!!SuiteA!!!Case1" +:+ LF; "  "; "mod!!!SuiteB"; "plain"]
  = "SuiteA.Case1:SuiteB.*"
  ∧ _convert_ctest_filter
      ["mod!!!SuiteA!!!Case1" +:+ LF; "  "; "*!!!TestX!!!*"; "plain"]
    = "SuiteA|TestX".
Proof.
  destruct (filter_conversion
              ["mod!!!SuiteA!!!Case1" +:+ LF; "  "; "mod!!!SuiteB"; "plain"]
              [["mod"; "SuiteA"; "Case1"]; [""]; ["mod"; "SuiteB"]; ["plain"]])
    as (Hg & _).
  { repeat constructor; try discriminate; vm_compute; intuition discriminate. }
  destruct (filter_conversion
              ["mod!!!SuiteA!!!Case1" +:+ LF; "  "; "*!!!TestX!!!*"; "plain"]
              [["mod"; "SuiteA"; "Case1"]; [""]; ["*"; "TestX"; "*"];
               ["plain"]])
    as (_ & Hc & _).
  { repeat constructor; try discriminate; vm_compute; intuition discriminate. }
  split; [rewrite Hg | rewrite Hc]; reflexivity.
Defined.
(* ===================================================================== *)
(** * Further properties: hunk headers and parsed hunks *)
(* ===================================================================== *)

Lemma span_digits_spec (s : string) :
  all_digits (span_digits s).1 ∧ s = (span_digits s).1 +:+ (span_digits s).2.
Proof.
  induction s as [|c s [IH1 IH2]]; [done|]. cbn [span_digits].
  destruct (is_digit c) eqn:Hc; [|done].
  destruct (span_digits s) as [d r]. simpl in *. split; [done|].
  by rewrite append_cons, <- IH2.
Qed.

Lemma digit_val_nonneg (c : ascii) : is_digit c = true → 0 ≤ digit_val c.
Proof.
  unfold is_digit, digit_val. intros [H _]%andb_prop.
  apply N.leb_le in H. lia.
Qed.

Lemma int_acc_nonneg (s : string) (acc : Z) :
  all_digits s → 0 ≤ acc → 0 ≤ int_acc acc s.
Proof.
  revert acc. induction s as [|c s IH]; intros acc Hs Hacc; [done|].
  destruct Hs as [Hc Hs]. cbn [int_acc]. apply IH; [done|].
  pose proof (digit_val_nonneg c Hc). lia.
Qed.

Lemma int_span_digits_nonneg (s : string) : 0 ≤ int (span_digits s).1.
Proof. apply int_acc_nonneg; [apply span_digits_spec | done]. Qed.

Lemma opt_count_nonneg (s r : string) (g : option string) :
  opt_count s = Some (g, r) → 0 ≤ count_or_1 g.
Proof.
  unfold opt_count. destruct s as [|c s]; [by intros [= <- _]|].
  destruct (Ascii.eqb_spec c ","%char) as [->|Hne].
  - pose proof (int_span_digits_nonneg s) as Hd.
    destruct (span_digits s) as [[|d0 d] r']; [done|].
    by intros [= <- _].
  - assert (∀ A (x y : A), match c with ","%char => x | _ => y end = y) as Hc.
    { intros A x y.
      destruct c as [[] [] [] [] [] [] [] []]; try done. }
    rewrite Hc. by intros [= <- _].
Qed.

(** The numbers of a header that matches are not negative. *)
Lemma hunk_match_nonneg (line : string) (os oc ns nc : Z) :
  hunk_match line = Some (os, oc, ns, nc) →
  0 ≤ os ∧ 0 ≤ oc ∧ 0 ≤ ns ∧ 0 ≤ nc.
Proof.
  unfold hunk_match.
  destruct (strip_prefix "@@ -" line) as [r1|]; [|done].
  cbn [mbind option_bind].
  pose proof (int_span_digits_nonneg r1) as H1.
  destruct (span_digits r1) as [[|a0 a] r2]; [done|].
  destruct (opt_count r2) as [[g1 r3]|] eqn:Hg1; [|done].
  cbn [mbind option_bind].
  destruct (strip_prefix " +" r3) as [r4|]; [|done].
  cbn [mbind option_bind].
  pose proof (int_span_digits_nonneg r4) as H2.
  destruct (span_digits r4) as [[|b0 b] r5]; [done|].
  destruct (opt_count r5) as [[g2 r6]|] eqn:Hg2; [|done].
  cbn [mbind option_bind].
  destruct (strip_prefix " @@" r6) as [r7|]; [|done].
  cbn [mbind option_bind]. intros [= <- <- <- <-].
  repeat split; try done; by eapply opt_count_nonneg.
Qed.
Lemma parse_hunks_step_invariant (hunks : list Hunk) (cur : option Hunk)
    (line : string) :
  Forall parsed_hunk (parse_hunks_finish (hunks, cur)) →
  Forall parsed_hunk
    (parse_hunks_finish (parse_hunks_step (hunks, cur) line))
  ∧ length (parse_hunks_finish (parse_hunks_step (hunks, cur) line))
    = (length (parse_hunks_finish (hunks, cur))
       + match hunk_match line with Some _ => 1 | None => 0 end)%nat.
Proof.
  intros Hinv. unfold parse_hunks_step.
  destruct (hunk_match line) as [[[[os oc] ns] nc]|] eqn:Hm.
  - apply hunk_match_nonneg in Hm as (? & ? & ? & ?).
    assert (parsed_hunk (mkHunk os oc ns nc [])) as Hnew.
    { unfold parsed_hunk. simpl. by repeat split. }
    destruct cur as [h|]; simpl in *.
    + split; [|by rewrite !length_app].
      apply Forall_app. split; [done|by apply Forall_singleton].
    + split; [|by rewrite !length_app].
      apply Forall_app. split; [done|by apply Forall_singleton].
  - destruct cur as [h|]; simpl in *; [|by rewrite Nat.add_0_r].
    destruct (is_hunk_line line) eqn:Hl; simpl; [|by rewrite Nat.add_0_r].
    rewrite Forall_app, Forall_singleton in Hinv.
    destruct Hinv as [Hhs Hh]. unfold parsed_hunk in Hh.
    split; [|rewrite !length_app; simpl; lia].
    apply Forall_app. split; [done|]. apply Forall_singleton.
    destruct Hh as (? & ? & ? & ? & Hls). unfold parsed_hunk. simpl.
    repeat split; try done.
    apply Forall_app. split; [done|]. apply Forall_singleton.
    by rewrite Hl.
Qed.

Lemma parse_hunks_foldl_invariant (ls : list string)
    (st : list Hunk * option Hunk) :
  Forall parsed_hunk (parse_hunks_finish st) →
  Forall parsed_hunk (parse_hunks_finish (foldl parse_hunks_step st ls))
  ∧ length (parse_hunks_finish (foldl parse_hunks_step st ls))
    = (length (parse_hunks_finish st)
       + length (base.filter (λ l, is_Some (hunk_match l)) ls))%nat.
Proof.
  revert st. induction ls as [|l ls IH]; intros [hunks cur] Hinv.
  - simpl. split; [done|lia].
  - cbn [foldl].
    destruct (parse_hunks_step_invariant hunks cur l Hinv) as [H1 H2].
    destruct (parse_hunks_step (hunks, cur) l) as [hunks' cur'].
    destruct (IH (hunks', cur') H1) as [H3 H4]. split; [done|].
    rewrite H4, H2, filter_cons.
    destruct (decide (is_Some (hunk_match l))) as [[x Hx]|Hx].
    + rewrite Hx. simpl. lia.
    + destruct (hunk_match l); [by destruct Hx|lia].
Qed.

(** X1: every hunk that [_parse_hunks] returns has starts and counts that
    are not negative and only lines that begin with [+], [-], a space or a
    backslash, and there is one hunk for each line of the section that
    matches the header pattern. *)
Theorem parsed_hunks_invariant (diff_section : string) :
  Forall parsed_hunk (_parse_hunks diff_section)
  ∧ length (_parse_hunks diff_section)
    = length (base.filter (λ l, is_Some (hunk_match l))
                          (splitlines diff_section)).
Proof.
  unfold _parse_hunks, parse_hunks_lines.
  destruct (parse_hunks_foldl_invariant (splitlines diff_section) ([], None))
    as [H1 H2]; [by apply Forall_nil|].
  split; [done|]. by rewrite H2.
Qed.

Lemma strip_prefix_app (p s : string) : strip_prefix p (p +:+ s) = Some s.
Proof.
  induction p as [|c p IH]; [done|]. rewrite append_cons.
  cbn [strip_prefix]. by rewrite Ascii.eqb_refl.
Qed.

Lemma span_digits_app (d s : string) :
  all_digits d →
  (s = "" ∨ ∃ c r, s = String c r ∧ is_digit c = false) →
  span_digits (d +:+ s) = (d, s).
Proof.
  intros Hd Hs. induction d as [|c d IH].
  - rewrite append_nil. destruct Hs as [->|(c & r & -> & Hc)]; [done|].
    cbn [span_digits]. by rewrite Hc.
  - destruct Hd as [Hc Hd]. rewrite append_cons. cbn [span_digits].
    by rewrite Hc, IH.
Qed.

Lemma opt_count_count_text (count : option string) (c : ascii) (s : string) :
  (∀ d, count = Some d → all_digits d ∧ d ≠ "") →
  c ≠ ","%char → is_digit c = false →
  opt_count (count_text count +:+ String c s) = Some (count, String c s).
Proof.
  intros Hcount Hc Hd. destruct count as [d|].
  - destruct (Hcount d eq_refl) as [Hdig Hne].
    change (count_text (Some d) +:+ String c s)
      with (String "," (d +:+ String c s)).
    cbn [opt_count]. rewrite span_digits_app by eauto.
    by destruct d.
  - change (count_text None +:+ String c s) with (String c s).
    unfold opt_count.
    destruct c as [[] [] [] [] [] [] [] []]; done.
Qed.

(** X2: a header written with its two starts, each count written or left
    out, and any text after the closing [@@], matches; the numbers are
    those written and a count that is left out is 1. *)
Theorem hunk_match_header_text (os ns : string) (oc nc : option string)
    (rest : string) :
  all_digits os → os ≠ "" → all_digits ns → ns ≠ "" →
  (∀ d, oc = Some d → all_digits d ∧ d ≠ "") →
  (∀ d, nc = Some d → all_digits d ∧ d ≠ "") →
  hunk_match (header_text os oc ns nc rest)
  = Some (int os, count_or_1 oc, int ns, count_or_1 nc).
Proof.
  intros Hos Hos' Hns Hns' Hoc Hnc. unfold header_text, hunk_match.
  rewrite strip_prefix_app. cbn [mbind option_bind].
  assert (∀ count s,
            count_text count +:+ String " " s = "" ∨
            ∃ c r, count_text count +:+ String " " s = String c r
                   ∧ is_digit c = false) as Hnext.
  { intros [d|] s; right; eexists _, _; split; reflexivity. }
  change (" +" +:+ ns +:+ count_text nc +:+ " @@" +:+ rest)
    with (String " " ("+" +:+ ns +:+ count_text nc +:+ " @@" +:+ rest)).
  rewrite span_digits_app by auto.
  destruct os as [|o0 os]; [done|].
  rewrite opt_count_count_text by done. cbn [mbind option_bind].
  change (String " " ("+" +:+ ns +:+ count_text nc +:+ " @@" +:+ rest))
    with (" +" +:+ ns +:+ count_text nc +:+ " @@" +:+ rest).
  rewrite strip_prefix_app. cbn [mbind option_bind].
  change (" @@" +:+ rest) with (String " " ("@@" +:+ rest)).
  rewrite span_digits_app by auto.
  destruct ns as [|n0 ns]; [done|].
  rewrite opt_count_count_text by done. cbn [mbind option_bind].
  change (String " " ("@@" +:+ rest)) with (" @@" +:+ rest).
  rewrite strip_prefix_app. done.
Qed.

Lemma hunk_match_header_text_witness :
  hunk_match (header_text "12" None "14" (Some "0") " int main()")
  = Some (12, 1, 14, 0).
Proof.
  rewrite (hunk_match_header_text "12" "14" None (Some "0") " int main()").
  - reflexivity.
  - repeat split.
  - discriminate.
  - repeat split.
  - discriminate.
  - discriminate.
  - intros d [= <-]. split; [repeat split | discriminate].
Defined.
(* ===================================================================== *)
(** * Further properties: applying hunks at the bounds of the buffer *)
(* ===================================================================== *)

Lemma splice_bounds (buffer span : list string) (start count : Z) :
  1 ≤ start → 0 ≤ count →
  let result := take (Z.to_nat (start - 1)) buffer ++ span
                ++ drop (Z.to_nat (start - 1 + count)) buffer in
  (Z.of_nat (length buffer) ≤ start - 1 + count →
   result = take (Z.to_nat (start - 1)) buffer ++ span)
  ∧ (Z.of_nat (length buffer) ≤ start - 1 → result = buffer ++ span)
  ∧ (start - 1 + count ≤ Z.of_nat (length buffer) →
     Z.of_nat (length result)
     = Z.of_nat (length buffer) - count + Z.of_nat (length span)).
Proof.
  intros Hs Hc result. unfold result. repeat split.
  - intros Hlen. rewrite (drop_ge buffer) by lia. by rewrite app_nil_r.
  - intros Hlen. rewrite (drop_ge buffer), (take_ge buffer) by lia.
    by rewrite app_nil_r.
  - intros Hlen. rewrite !length_app, length_take, length_drop. lia.
Qed.

(** X3: applying a hunk never fails on a buffer that is too short.  With
    starts counted from one, a hunk whose range runs past the end of the
    buffer replaces everything from its start on, a hunk that starts past
    the end is appended, and a hunk whose range lies in the buffer changes
    the length by the length of its span minus its count; forward
    application goes by the old start and count, reverse application by
    the new ones. *)
Theorem apply_hunk_bounds (buffer : list string) (h : Hunk) :
  1 ≤ old_start h → 0 ≤ old_count h → 1 ≤ new_start h → 0 ≤ new_count h →
  ((Z.of_nat (length buffer) ≤ old_start h - 1 + old_count h →
    _forward_apply_hunk buffer h
    = take (Z.to_nat (old_start h - 1)) buffer ++ new_section h)
   ∧ (Z.of_nat (length buffer) ≤ old_start h - 1 →
      _forward_apply_hunk buffer h = buffer ++ new_section h)
   ∧ (old_start h - 1 + old_count h ≤ Z.of_nat (length buffer) →
      Z.of_nat (length (_forward_apply_hunk buffer h))
      = Z.of_nat (length buffer) - old_count h
        + Z.of_nat (length (new_section h))))
  ∧ ((Z.of_nat (length buffer) ≤ new_start h - 1 + new_count h →
      _reverse_apply_hunk buffer h
      = take (Z.to_nat (new_start h - 1)) buffer ++ old_section h)
     ∧ (Z.of_nat (length buffer) ≤ new_start h - 1 →
        _reverse_apply_hunk buffer h = buffer ++ old_section h)
     ∧ (new_start h - 1 + new_count h ≤ Z.of_nat (length buffer) →
        Z.of_nat (length (_reverse_apply_hunk buffer h))
        = Z.of_nat (length buffer) - new_count h
          + Z.of_nat (length (old_section h)))).
Proof.
  intros Hos Hoc Hns Hnc. split.
  - unfold _forward_apply_hunk.
    rewrite slice_to_nonneg, slice_from_nonneg by lia.
    by apply splice_bounds.
  - unfold _reverse_apply_hunk.
    rewrite slice_to_nonneg, slice_from_nonneg by lia.
    by apply splice_bounds.
Qed.

Lemma apply_hunk_bounds_witness :
  _forward_apply_hunk ["a"; "b"] (mkHunk 5 2 2 1 ["-x"; "-y"; "+z"])
  = ["a"; "b"; "z"]
  ∧ Z.of_nat (length (_reverse_apply_hunk ["a"; "b"]
                        (mkHunk 5 2 2 1 ["-x"; "-y"; "+z"]))) = 3.
Proof.
  destruct (apply_hunk_bounds ["a"; "b"]
              (mkHunk 5 2 2 1 ["-x"; "-y"; "+z"]))
    as ((_ & Hf & _) & (_ & _ & Hr)); [simpl; lia ..|].
  split.
  - rewrite Hf; [reflexivity | simpl; lia].
  - rewrite Hr; [reflexivity | simpl; lia].
Defined.
(* ===================================================================== *)
(** * Further properties: reconstruction of added and deleted files *)
(* ===================================================================== *)

Lemma hunk_match_startswith (line : string) :
  is_Some (hunk_match line) → startswith line "@@" = true.
Proof.
  intros [x Hx]. unfold hunk_match in Hx.
  destruct (strip_prefix "@@ -" line) as [r|] eqn:Hr; [|done].
  clear Hx. unfold startswith.
  destruct line as [|c1 l]; [done|]. cbn [strip_prefix] in Hr.
  destruct (Ascii.eqb_spec "@" c1) as [<-|]; [|done].
  destruct l as [|c2 l]; [done|]. cbn [strip_prefix] in Hr.
  destruct (Ascii.eqb_spec "@" c2) as [<-|]; [|done].
  rewrite !prefix_cons_eq. apply prefix_empty.
Qed.

Lemma startswith_at_not_tag (line : string) :
  startswith line "@@" = true →
  startswith line "+" = false ∧ startswith line "-" = false
  ∧ startswith line " " = false.
Proof.
  unfold startswith. destruct line as [|c l]; [done|].
  change (String.prefix "@@" (String c l))
    with (if ascii_dec "@" c then String.prefix "@" l else false).
  destruct (ascii_dec "@" c) as [<-|]; [|done]. intros _.
  repeat split; by apply prefix_cons_ne.
Qed.

Lemma new_section_snoc (h : Hunk) (l : string) :
  new_section (with_lines h (lines h ++ [l]))
  = forward_section_step (new_section h) l.
Proof. unfold new_section. simpl. by rewrite foldl_app. Qed.

Lemma old_section_snoc (h : Hunk) (l : string) :
  old_section (with_lines h (lines h ++ [l]))
  = reverse_section_step (old_section h) l.
Proof. unfold old_section. simpl. by rewrite foldl_app. Qed.

Lemma is_hunk_line_false (l : string) :
  is_hunk_line l = false →
  startswith l "+" = false ∧ startswith l "-" = false
  ∧ startswith l " " = false.
Proof.
  unfold is_hunk_line.
  destruct (startswith l "+"), (startswith l "-"), (startswith l " ");
    simpl; try done.
Qed.

Lemma sections_of_current (section : Hunk → list string)
    (hunks : list Hunk) (h : Hunk) :
  sections_of section (hunks, Some h)
  = sections_of section (hunks, None) ++ section h.
Proof.
  unfold sections_of. simpl. rewrite fmap_app, concat_app. simpl.
  by rewrite app_nil_r.
Qed.

Lemma added_step_parse (st : list Hunk * option Hunk)
    (acc : list string) (line : string) :
  (startswith line "@@" = true → is_Some (hunk_match line)) →
  acc = sections_of new_section st →
  let st' := parse_hunks_step st line in
  added_step (acc, bool_decide (is_Some st.2)) line
  = (sections_of new_section st', bool_decide (is_Some st'.2)).
Proof.
  intros Hwf -> st'. unfold st'. clear st'. destruct st as [hunks cur].
  unfold added_step, parse_hunks_step.
  destruct (startswith line "@@") eqn:Hat.
  - destruct (Hwf eq_refl) as [[[[os oc] ns] nc] Hm]. rewrite Hm. simpl.
    f_equal. destruct cur as [h|].
    + rewrite (sections_of_current _ (hunks ++ [h])). simpl.
      rewrite app_nil_r. unfold sections_of. done.
    + rewrite (sections_of_current _ hunks). simpl. by rewrite app_nil_r.
  - destruct (hunk_match line) eqn:Hm.
    { rewrite hunk_match_startswith in Hat by (by rewrite Hm). done. }
    destruct cur as [h|]; simpl; [|done].
    destruct (is_hunk_line line) eqn:Hl; simpl.
    + rewrite !sections_of_current, new_section_snoc.
      unfold forward_section_step.
      destruct (startswith line "+"); [by rewrite app_assoc|].
      destruct (startswith line "-"); [done|].
      destruct (startswith line " "); [by rewrite app_assoc|done].
    + apply is_hunk_line_false in Hl as (-> & -> & ->). done.
Qed.

Lemma deleted_step_parse (st : list Hunk * option Hunk)
    (acc : list string) (line : string) :
  (startswith line "@@" = true → is_Some (hunk_match line)) →
  acc = sections_of old_section st →
  let st' := parse_hunks_step st line in
  deleted_step (acc, bool_decide (is_Some st.2)) line
  = (sections_of old_section st', bool_decide (is_Some st'.2)).
Proof.
  intros Hwf -> st'. unfold st'. clear st'. destruct st as [hunks cur].
  unfold deleted_step, parse_hunks_step.
  destruct (startswith line "@@") eqn:Hat.
  - destruct (Hwf eq_refl) as [[[[os oc] ns] nc] Hm]. rewrite Hm. simpl.
    f_equal. destruct cur as [h|].
    + rewrite (sections_of_current _ (hunks ++ [h])). simpl.
      rewrite app_nil_r. unfold sections_of. done.
    + rewrite (sections_of_current _ hunks). simpl. by rewrite app_nil_r.
  - destruct (hunk_match line) eqn:Hm.
    { rewrite hunk_match_startswith in Hat by (by rewrite Hm). done. }
    destruct cur as [h|]; simpl; [|done].
    destruct (is_hunk_line line) eqn:Hl; simpl.
    + rewrite !sections_of_current, old_section_snoc.
      unfold reverse_section_step.
      destruct (startswith line "-"); [by rewrite app_assoc|].
      destruct (startswith line "+"); [done|].
      destruct (startswith line " "); [by rewrite app_assoc|done].
    + apply is_hunk_line_false in Hl as (-> & -> & ->). done.
Qed.
Lemma added_foldl_parse (ls : list string) (st : list Hunk * option Hunk) :
  Forall (λ l, startswith l "@@" = true → is_Some (hunk_match l)) ls →
  foldl added_step (sections_of new_section st, bool_decide (is_Some st.2)) ls
  = (sections_of new_section (foldl parse_hunks_step st ls),
     bool_decide (is_Some (foldl parse_hunks_step st ls).2)).
Proof.
  intros Hwf. revert st. induction Hwf as [|l ls Hl _ IH]; intros st; [done|].
  cbn [foldl]. rewrite (added_step_parse st _ l Hl eq_refl). apply IH.
Qed.

Lemma deleted_foldl_parse (ls : list string) (st : list Hunk * option Hunk) :
  Forall (λ l, startswith l "@@" = true → is_Some (hunk_match l)) ls →
  foldl deleted_step (sections_of old_section st, bool_decide (is_Some st.2)) ls
  = (sections_of old_section (foldl parse_hunks_step st ls),
     bool_decide (is_Some (foldl parse_hunks_step st ls).2)).
Proof.
  intros Hwf. revert st. induction Hwf as [|l ls Hl _ IH]; intros st; [done|].
  cbn [foldl]. rewrite (deleted_step_parse st _ l Hl eq_refl). apply IH.
Qed.

(** X4: when every line of the section that begins with [@@] is a hunk
    header, the content reconstructed for an added file is the new
    sections of the parsed hunks, one after the other, and the content
    reconstructed for a deleted file is their old sections; the lines in
    front of the first header (among them [+++ b/path] and [--- a/path])
    are no content. *)
Theorem reconstruction_collects_hunk_sections
    (c : DiffFileClient) (fp diff_section : string) :
  _file_diffs c !! fp = Some diff_section →
  Forall (λ l, startswith l "@@" = true → is_Some (hunk_match l))
         (splitlines diff_section) →
  _reconstruct_added_file c fp
  = join LF (concat (new_section <$> _parse_hunks diff_section))
  ∧ _reconstruct_deleted_file c fp
    = join LF (concat (old_section <$> _parse_hunks diff_section)).
Proof.
  intros Hfd Hwf.
  unfold _reconstruct_added_file, _reconstruct_deleted_file. rewrite Hfd.
  pose proof (added_foldl_parse _ ([], None) Hwf) as Ha.
  pose proof (deleted_foldl_parse _ ([], None) Hwf) as Hd.
  change (sections_of new_section ([], None)) with (@nil string) in Ha.
  change (sections_of old_section ([], None)) with (@nil string) in Hd.
  change (bool_decide (is_Some ([], None).2)) with false in Ha, Hd.
  by rewrite Ha, Hd.
Qed.



Lemma reconstruction_collects_hunk_sections_witness :
  _reconstruct_added_file
    (mkClient (Path_of "/repo") None "old" None None
              {[ "new.c" := added_section ]}) "new.c"
  = "x" +:+ LF +:+ "y"
  ∧ _reconstruct_deleted_file
      (mkClient (Path_of "/repo") None "old" None None
                {[ "new.c" := added_section ]}) "new.c"
    = "".
Proof.
  destruct (reconstruction_collects_hunk_sections
              (mkClient (Path_of "/repo") None "old" None None
                        {[ "new.c" := added_section ]})
              "new.c" added_section) as [Ha Hd].
  - reflexivity.
  - assert (splitlines added_section
            = ["diff --git a/new.c b/new.c"; "new file mode 100644";
               "--- /dev/null"; "+++ b/new.c"; "@@ -0,0 +1,2 @@";
               "+x"; "+y"]) as -> by (vm_compute; reflexivity).
    repeat (apply Forall_cons; split); try apply Forall_nil;
      try (intros H; discriminate H).
    all: try (intros _; eexists; vm_compute; reflexivity).
    all: exact I.
  - split; [rewrite Ha | rewrite Hd]; vm_compute; reflexivity.
Defined.

(** X5: the round trip the other way.  When the hunks of the file
    describe the change from the old lines to the new lines, forward
    application to the old content followed by reverse application
    returns the old content with its lines joined by single line feeds,
    as long as the new lines hold no line boundary and do not end with an
    empty line. *)
Theorem round_trip_from_old
    (c : DiffFileClient) (fp diff_section content : string)
    (new : list string) :
  _file_diffs c !! fp = Some diff_section →
  describes 0 0 (_parse_hunks diff_section) (splitlines content) new →
  Forall no_linebreak new → last new ≠ Some "" →
  _forward_apply_diff c fp content = join LF new
  ∧ _reverse_apply_diff c fp (_forward_apply_diff c fp content)
    = join LF (splitlines content).
Proof.
  intros Hfd Hd Hnew Hlast.
  pose proof (reverse_describes _ _ _ _ _ Hd [] eq_refl) as Hrev.
  pose proof (forward_describes _ _ _ _ _ Hd [] eq_refl) as Hfwd.
  simpl in Hrev, Hfwd.
  assert (_forward_apply_diff c fp content = join LF new) as Hf.
  { unfold _forward_apply_diff. by rewrite Hfd, Hfwd. }
  split; [done|]. rewrite Hf. unfold _reverse_apply_diff. rewrite Hfd.
  by rewrite splitlines_join, Hrev.
Qed.

Lemma round_trip_from_old_witness :
  _reverse_apply_diff (two_hunk_client "old") "f"
    (_forward_apply_diff (two_hunk_client "old") "f"
       ("A" +:+ LF +:+ "B" +:+ LF +:+ "C" +:+ LF +:+ "D" +:+ LF +:+ "E" +:+ LF))
  = "A" +:+ LF +:+ "B" +:+ LF +:+ "C" +:+ LF +:+ "D" +:+ LF +:+ "E".
Proof.
  destruct (round_trip_from_old (two_hunk_client "old") "f" two_hunk_section
              ("A" +:+ LF +:+ "B" +:+ LF +:+ "C" +:+ LF +:+ "D" +:+ LF +:+ "E" +:+ LF)
              ["A2"; "B"; "C"; "D2"; "E"]) as (_ & H).
  - reflexivity.
  - apply (describes_cons 0 0 (mkHunk 1 1 1 1 ["-A"; "+A2"])
             [mkHunk 4 1 4 1 ["-D"; "+D2"]] []
             ["B"; "C"; "D"; "E"] ["B"; "C"; "D2"; "E"]);
      [reflexivity ..|].
    apply (describes_cons 1 1 (mkHunk 4 1 4 1 ["-D"; "+D2"]) []
             ["B"; "C"] ["E"] ["E"]); [reflexivity ..|].
    apply describes_nil.
  - repeat constructor; discriminate.
  - discriminate.
  - exact H.
Defined.
(* ===================================================================== *)
(** * Further properties: the diff sections of [get_diff] *)
(* ===================================================================== *)

Lemma scan_files_step (all_lines : list string) (sc : Scan) (idx : nat)
    (line : string) :
  scan_files (get_diff_step all_lines sc (idx, line))
  = files_step (scan_files sc) line.
Proof.
  destruct sc as [its cf cdl fd].
  unfold get_diff_step, files_step, scan_files, save_file_diff. simpl.
  destruct (startswith line "diff --git");
    [destruct (diff_match line)|]; by destruct cf.
Qed.

Lemma scan_files_foldl (all_lines ls : list string) (g : nat → nat)
    (sc : Scan) :
  scan_files (foldl (get_diff_step all_lines) sc
                    (imap (λ idx x, (g idx, x)) ls))
  = foldl files_step (scan_files sc) ls.
Proof.
  revert g sc. induction ls as [|l ls IH]; intros g sc; [done|].
  cbn [imap foldl]. rewrite <- (scan_files_step all_lines sc (g 0%nat) l).
  apply (IH (g ∘ S)).
Qed.

Lemma save_file_diff_files (sc : Scan) :
  save_file_diff sc = files_save (scan_files sc).
Proof. unfold save_file_diff, scan_files. by destruct (current_file sc). Qed.

Lemma strip_prefix_Some (p s r : string) :
  strip_prefix p s = Some r → s = p +:+ r.
Proof.
  revert s. induction p as [|c p IH]; intros s.
  - simpl. by intros [= ->].
  - destruct s as [|c' s]; [done|]. cbn [strip_prefix].
    destruct (Ascii.eqb_spec c c') as [<-|]; [|done].
    intros H. rewrite append_cons. f_equal. by apply IH.
Qed.

Lemma prefix_app (p s : string) : String.prefix p (p +:+ s) = true.
Proof.
  induction p as [|c p IH]; [apply prefix_empty|].
  rewrite append_cons, prefix_cons_eq. done.
Qed.

Lemma diff_match_startswith (line fp : string) :
  diff_match line = Some fp → startswith line "diff --git" = true.
Proof.
  unfold diff_match.
  destruct (strip_prefix "diff --git a/" line) as [r|] eqn:Hr; [|done].
  intros _. apply strip_prefix_Some in Hr as ->.
  change ("diff --git a/" +:+ r) with ("diff --git" +:+ (" a/" +:+ r)).
  apply prefix_app.
Qed.

Lemma files_step_body (body : list string) (f : string) (cdl : list string)
    (fd : gmap string string) :
  Forall (λ l, startswith l "diff --git" = false) body →
  foldl files_step (Some f, cdl, fd) body = (Some f, cdl ++ body, fd).
Proof.
  intros Hbody. revert cdl.
  induction Hbody as [|l body Hl _ IH]; intros cdl.
  - simpl. by rewrite app_nil_r.
  - cbn [foldl]. unfold files_step at 2. rewrite Hl. simpl.
    rewrite IH. by rewrite <- app_assoc.
Qed.

Lemma files_step_other_paths (rest : list string) (fp target : string)
    (st : option string * list string * gmap string string) :
  Forall (λ l, startswith l "diff --git" = true →
               ∃ fp', diff_match l = Some fp' ∧ fp' ≠ fp) rest →
  (∃ f, st.1.1 = Some f ∧ f ≠ fp) → st.2 !! fp = Some target →
  files_save (foldl files_step st rest) !! fp = Some target.
Proof.
  intros Hrest. revert st.
  induction Hrest as [|l rest Hl _ IH]; intros [[cf cdl] fd] (f & Hf & Hne) Hfd;
    simpl in Hf, Hfd; subst cf.
  - simpl. by rewrite lookup_insert_ne.
  - cbn [foldl]. apply IH; unfold files_step.
    + destruct (startswith l "diff --git") eqn:Hs; simpl; [|by eauto].
      destruct (Hl eq_refl) as (fp' & -> & Hne'). simpl. by eauto.
    + destruct (startswith l "diff --git") eqn:Hs; simpl; [|done].
      destruct (Hl eq_refl) as (fp' & -> & Hne'). simpl.
      by rewrite lookup_insert_ne.
Qed.

(** X6: the diff section that [get_diff] keeps for a path is its header
    line and the lines after it up to the next line that begins with
    [diff --git] (or the end of the text), joined by line feeds, provided
    the lines that begin with [diff --git] further down are headers of
    other paths. *)
Theorem diff_section_of_header
    (w : World) (seed : list nat) (c c1 : DiffFileClient)
    (text : string) (pre body rest : list string) (hdr fp : string) :
  _changelist c = None → diff_content w c = Ok (text, c1) →
  splitlines text = pre ++ hdr :: body ++ rest →
  diff_match hdr = Some fp →
  Forall (λ l, startswith l "diff --git" = false) body →
  (rest = [] ∨ ∃ l r, rest = l :: r ∧ startswith l "diff --git" = true) →
  Forall (λ l, startswith l "diff --git" = true →
               ∃ fp', diff_match l = Some fp' ∧ fp' ≠ fp) rest →
  ∃ cl c',
    get_diff w seed c = Ok (cl, c')
    ∧ _file_diffs c' !! fp = Some (join LF (hdr :: body)).
Proof.
  intros Hc Ht Hsplit Hm Hbody Hhead Hrest.
  eexists _, _. split; [by apply get_diff_fresh|]. simpl.
  rewrite save_file_diff_files. unfold get_diff_scan, enumerate.
  rewrite (scan_files_foldl _ _ (λ i, i)). rewrite Hsplit.
  rewrite foldl_app. cbn [foldl].
  destruct (foldl files_step _ pre) as [[cf0 cdl0] fd0] eqn:Hpre.
  unfold files_step at 2.
  rewrite (diff_match_startswith _ _ Hm), Hm.
  rewrite foldl_app, files_step_body by done.
  destruct Hhead as [->|(l & r & -> & Hl)].
  - simpl. by rewrite lookup_insert_eq.
  - apply Forall_cons in Hrest as [Hl' Hrest].
    destruct (Hl' Hl) as (fp' & Hm' & Hne).
    cbn [foldl]. unfold files_step at 2. rewrite Hl, Hm'.
    apply files_step_other_paths; [done|by eauto|].
    simpl. by rewrite lookup_insert_eq.
Qed.

Lemma diff_section_of_header_witness :
  ∃ cl c',
    get_diff three_files_world [] (three_files_client "old") = Ok (cl, c')
    ∧ _file_diffs c' !! "new.c"
      = Some ("diff --git a/new.c b/new.c" +:+ LF +:+
              "new file mode 100644" +:+ LF +:+
              "--- /dev/null" +:+ LF +:+
              "+++ b/new.c" +:+ LF +:+
              "@@ -0,0 +1,2 @@" +:+ LF +:+
              "+x" +:+ LF +:+ "+y").
Proof.
  apply (diff_section_of_header three_files_world []
           (three_files_client "old") (three_files_client "old")
           three_files_diff
           (take 7 (splitlines three_files_diff))
           (take 6 (drop 8 (splitlines three_files_diff)))
           (drop 14 (splitlines three_files_diff))
           "diff --git a/new.c b/new.c" "new.c").
  - reflexivity.
  - reflexivity.
  - vm_compute. reflexivity.
  - reflexivity.
  - vm_compute. repeat constructor.
  - right. eexists _, _. split; vm_compute; reflexivity.
  - vm_compute. repeat constructor; try discriminate.
    intros _. eexists. split; [reflexivity | discriminate].
Defined.
(* ===================================================================== *)
(** * Further properties: errors of the client *)
(* ===================================================================== *)

(** X7: a client is built unless neither a diff file nor a diff text is
    given.  A client that is built starts without change list and
    sections; its first [get_diff] raises only when the text has to be
    read from a diff file that is not there, and never when the text was
    given. *)
Theorem built_client_parses
    (root : Path) (diff_file : option Path) (repo_state : string)
    (diff_text : option string) :
  (__init__ root diff_file repo_state diff_text
   = Raise (ValueError "Either diff_file or diff_content must be provided")
   ↔ diff_file = None ∧ diff_text = None)
  ∧ ∀ c, __init__ root diff_file repo_state diff_text = Ok c →
      _changelist c = None ∧ _file_diffs c = ∅
      ∧ ∀ w seed,
          (∃ cl c', get_diff w seed c = Ok (cl, c'))
          ∨ (∃ f, diff_text = None ∧ diff_file = Some f
                  ∧ read_text w f = None
                  ∧ get_diff w seed c = Raise (FileNotFoundError (path_str f))).
Proof.
  split.
  - unfold __init__. destruct diff_file, diff_text; split; try done;
      by intros [? ?].
  - intros c Hc.
    assert (c = mkClient root diff_file repo_state diff_text None ∅
            ∧ (is_Some diff_file ∨ is_Some diff_text)) as [-> Hsome].
    { unfold __init__ in Hc.
      destruct diff_file, diff_text; try done; injection Hc as <-;
        split; eauto. }
    split; [done|]. split; [done|]. intros w seed.
    unfold get_diff, diff_content. simpl.
    destruct diff_text as [text|]; simpl; [left; by eexists _, _|].
    destruct diff_file as [f|]; [|by destruct Hsome as [[? ?]|[? ?]]].
    destruct (read_text w f) eqn:Hr; simpl; [left; by eexists _, _|].
    right. by exists f.
Qed.

Lemma built_client_parses_witness :
  ∃ c cl c',
    __init__ (Path_of "/repo") None "old" (Some three_files_diff) = Ok c
    ∧ get_diff three_files_world [] c = Ok (cl, c').
Proof.
  destruct (built_client_parses (Path_of "/repo") None "old"
              (Some three_files_diff)) as [_ H].
  destruct (H (three_files_client "old") eq_refl) as (_ & _ & Hg).
  destruct (Hg three_files_world []) as [(cl & c' & Hok)|(f & Hf & _)];
    [|discriminate Hf].
  exists (three_files_client "old"), cl, c'. split; [reflexivity | exact Hok].
Defined.




(* ===================================================================== *)
(** * Further properties: the sides of a path that is in the change list *)
(* ===================================================================== *)

(** X9: for a path whose only action in the change list is MODIFIED
    both sides are the empty string when the file is not on disk; when
    the file is on disk and empty, the new side is the empty string
    without any hunk applied while the old side is the reverse application
    to the empty content; when the file has content, the new side is the
    forward and the old side the reverse application to it.  The new side
    of a path whose only action is ADDED and the old side of a path whose
    only action is DELETED are reconstructed from the diff section alone,
    whatever is on disk. *)
Theorem sides_by_action
    (w : World) (seed : list nat) (c c1 : DiffFileClient) (cl : Changelist)
    (fp : string) :
  get_diff w seed c = Ok (cl, c1) →
  (has_action cl fp MODIFIED →
   (read_text w (joinpath (root c1) (Path_of fp)) = None →
    _get_new_file_content w seed c fp = Ok ("", c1)
    ∧ _get_old_file_content w seed c fp = Ok ("", c1))
   ∧ (read_text w (joinpath (root c1) (Path_of fp)) = Some "" →
      _get_new_file_content w seed c fp = Ok ("", c1)
      ∧ _get_old_file_content w seed c fp
        = Ok (_reverse_apply_diff c1 fp "", c1))
   ∧ (∀ content,
        read_text w (joinpath (root c1) (Path_of fp)) = Some content →
        content ≠ "" →
        _get_new_file_content w seed c fp
        = Ok (_forward_apply_diff c1 fp content, c1)
        ∧ _get_old_file_content w seed c fp
          = Ok (_reverse_apply_diff c1 fp content, c1)))
  ∧ (has_action cl fp ADDED →
     _get_new_file_content w seed c fp
     = Ok (_reconstruct_added_file c1 fp, c1))
  ∧ (has_action cl fp DELETED →
     _get_old_file_content w seed c fp
     = Ok (_reconstruct_deleted_file c1 fp, c1)).
Proof.
  intros Hg.
  unfold _get_new_file_content, _get_old_file_content, _read_file_from_disk.
  rewrite Hg. simpl. split; [|split].
  - intros (it & -> & ->)%find_item_has_action. split; [|split].
    + by intros ->.
    + by intros ->.
    + intros content -> Hne. apply String.eqb_neq in Hne. by rewrite Hne.
  - by intros (it & -> & ->)%find_item_has_action.
  - by intros (it & -> & ->)%find_item_has_action.
Qed.

Lemma sides_by_action_witness :
  ∃ c1, _get_new_file_content three_files_world []
          (three_files_client "old") "new.c"
        = Ok ("x" +:+ LF +:+ "y", c1).
Proof.
  destruct (get_diff three_files_world [] (three_files_client "old"))
    as [[cl c1]|e] eqn:Hg; [|vm_compute in Hg; discriminate Hg].
  destruct (sides_by_action _ _ _ _ _ "new.c" Hg) as (_ & Hadd & _).
  vm_compute in Hg. injection Hg as <- <-.
  eexists. etransitivity; [apply Hadd | vm_compute; reflexivity].
  split.
  - eexists. split; [apply elem_of_cons; right; apply elem_of_cons; left;
                     reflexivity | reflexivity].
  - intros it Hin Hp.
    apply elem_of_cons in Hin as [->|Hin]; [discriminate Hp|].
    apply elem_of_cons in Hin as [->|Hin]; [reflexivity|].
    apply elem_of_cons in Hin as [->|Hin]; [discriminate Hp|].
    apply elem_of_nil in Hin. destruct Hin.
Defined.
(* ===================================================================== *)
(** * Further properties: the revisions that the callback [select] sets *)
(* ===================================================================== *)

(** X10: the sides that the revisions of the callback ask for.  With a
    diff file the revisions are [old] and [new]: the from-revision asks
    for the old side and the to-revision for the new side.  With
    [--dirty] the client holds the repository state [new] and the
    revisions are [HEAD] and [dirty]: the from-revision [HEAD] asks for
    the new side, so its content is the file on disk, and the
    to-revision [dirty] asks for the old side, so its content is
    reconstructed from the disk by the diff. *)
Theorem select_revision_sides
    (is_git_repo : bool) (get_dirty_diff : result string)
    (from_revision0 to_revision0 : string) (repo_root : Path)
    (diff_file : option Path) (dirty : bool) (repo_state0 : string)
    (simple : bool) (c : DiffFileClient) (opts : SelectCommonOptions) :
  Commands.select is_git_repo get_dirty_diff from_revision0 to_revision0
    repo_root diff_file dirty repo_state0 simple
  = Ok (DiffBacked c, opts) →
  root c = repo_root
  ∧ (dirty = false →
     repo_state c = repo_state0
     ∧ ¬ asks_new_side (from_revision opts)
     ∧ asks_new_side (to_revision opts))
  ∧ (dirty = true →
     repo_state c = "new"
     ∧ get_dirty_diff = Ok (default "" (_diff_content c))
     ∧ asks_new_side (from_revision opts)
     ∧ ¬ asks_new_side (to_revision opts)
     ∧ ∀ w seed fp,
         is_absolute fp = false →
         get_file_content_at_revision w seed c (from_revision opts) fp
         = Ok (_read_file_from_disk w c fp, c)
         ∧ get_file_content_at_revision w seed c (to_revision opts) fp
           = _get_old_file_content w seed c
               (replace_char "\" "/" (path_str fp))).
Proof.
  unfold Commands.select. destruct dirty.
  - destruct is_git_repo; [|done]. simpl.
    destruct get_dirty_diff as [text|e]; [|done]. simpl.
    intros [= <- <-]. simpl.
    split; [done|]. split; [done|]. intros _.
    split; [done|]. split; [done|]. split; [|split].
    + unfold asks_new_side. simpl. apply elem_of_cons. by left.
    + unfold asks_new_side. simpl. intros Hin.
      repeat (apply elem_of_cons in Hin as [Hin|Hin]; [discriminate Hin|]).
      by apply elem_of_nil in Hin.
    + intros w seed fp Hfp. unfold get_file_content_at_revision.
      rewrite Hfp. split; reflexivity.
  - destruct diff_file as [f|].
    + simpl. intros [= <- <-]. simpl.
      split; [done|]. split; [|done]. intros _.
      split; [done|]. split.
      * unfold asks_new_side. simpl. intros Hin.
        repeat (apply elem_of_cons in Hin as [Hin|Hin]; [discriminate Hin|]).
        by apply elem_of_nil in Hin.
      * unfold asks_new_side. simpl. apply elem_of_cons. right.
        apply elem_of_cons. by left.
    + by destruct is_git_repo.
Qed.

Lemma select_revision_sides_witness :
  ∃ c opts,
    Commands.select true (Ok three_files_diff) "" "" (Path_of "/repo") None
      true "old" false = Ok (DiffBacked c, opts)
    ∧ get_file_content_at_revision three_files_world [] c
        (from_revision opts) (Path_of "src/f.c")
      = Ok ("A2" +:+ LF +:+ "B" +:+ LF, c).
Proof.
  eexists _, _. split; [reflexivity|].
  destruct (select_revision_sides true (Ok three_files_diff) "" ""
              (Path_of "/repo") None true "old" false _ _ eq_refl)
    as (_ & _ & Hdirty).
  destruct (Hdirty eq_refl) as (_ & _ & _ & _ & Hside).
  destruct (Hside three_files_world [] (Path_of "src/f.c") eq_refl)
    as [Hfrom _].
  rewrite Hfrom. reflexivity.
Defined.
(* ===================================================================== *)
(** * Further properties: what a selection run leaves behind *)
(* ===================================================================== *)

Lemma write_selection_result
    (format_test_list : list string → bool → string)
    (seed_included seed_excluded : list nat)
    (opts : SelectCommonOptions) (sel : Selection) (o : OutDir) :
  ∃ o', write_selection format_test_list seed_included seed_excluded
          opts sel o = (o', Ok tt)
        ∧ has_selection_files o' ∧ events o' = events o.
Proof.
  destruct sel as [[inc exc] causes]. eexists. split; [reflexivity|].
  split; [|reflexivity]. unfold has_selection_files. simpl. repeat split.
  - do 2 rewrite lookup_insert_ne by done. by rewrite lookup_insert_eq.
  - rewrite lookup_insert_ne by done. by rewrite lookup_insert_eq.
  - by rewrite lookup_insert_eq.
Qed.

Lemma retest_all_has_selection_files (selection_failure : string)
    (o : OutDir) :
  retest_all_result selection_failure o → has_selection_files o.
Proof. intros (H1 & H2 & H3). unfold has_selection_files. eauto. Qed.

Lemma run_rts_body_result
    (format_test_list : list string → bool → string)
    (CppFileLevelRTS CppFunctionLevelRTS : RTSConfiguration → result RTSAlgo)
    (seed_included seed_excluded : list nat)
    (opts : SelectCommonOptions) (config : RTSConfiguration) (o1 : OutDir) :
  (∃ o2, _run_rts_body format_test_list CppFileLevelRTS CppFunctionLevelRTS
           seed_included seed_excluded opts config o1 = (o2, Ok tt)
         ∧ has_selection_files o2 ∧ events o2 = events o1)
  ∨ (∃ e, _run_rts_body format_test_list CppFileLevelRTS
            CppFunctionLevelRTS seed_included seed_excluded opts config o1
          = (o1, Raise e)).
Proof.
  unfold _run_rts_body, io_bind, lift.
  destruct (if file_level config then CppFileLevelRTS config
            else CppFunctionLevelRTS config) as [algo|e]; [|by eauto].
  destruct (select_tests algo (from_revision opts) (to_revision opts))
    as [sel|e]; [|by eauto].
  left. apply write_selection_result.
Qed.

Lemma syscalls_body_result
    (format_test_list : list string → bool → string)
    (seed_included seed_excluded : list nat)
    (opts : SelectCommonOptions) (rts_algo : RTSAlgo) (o1 : OutDir) :
  match select_tests rts_algo (from_revision opts) (to_revision opts) with
  | Ok sel =>
      ∃ o2, syscalls_body format_test_list seed_included seed_excluded
              opts rts_algo o1 = (o2, Ok tt)
            ∧ has_selection_files o2
            ∧ events o2 = events o1 ++ [RTS_END_EVENT +:+ "_syscall"]
  | Raise e =>
      syscalls_body format_test_list seed_included seed_excluded
        opts rts_algo o1 = (o1, Raise e)
  end.
Proof.
  unfold syscalls_body, io_bind, lift.
  destruct (select_tests rts_algo (from_revision opts) (to_revision opts))
    as [sel|e]; [|done].
  destruct (write_selection_result format_test_list seed_included
              seed_excluded opts sel o1) as (o2 & -> & Hf & Hev).
  eexists. split; [reflexivity|]. simpl. by rewrite Hev.
Qed.

(** X11: a run [_run_rts] always ends normally, whatever the making of
    the algorithm and the analysis do: the three files of the selection
    are in the output directory afterwards and the event log has got the
    start event and the end event of the configuration. *)
Theorem run_rts_always_completes
    (selection_failure : string)
    (format_test_list : list string → bool → string)
    (CppFileLevelRTS CppFunctionLevelRTS : RTSConfiguration → result RTSAlgo)
    (seed_included seed_excluded : list nat)
    (opts : SelectCommonOptions) (config : RTSConfiguration) (o : OutDir) :
  ∃ o',
    _run_rts selection_failure format_test_list CppFileLevelRTS
      CppFunctionLevelRTS seed_included seed_excluded opts config o
    = (o', Ok tt)
    ∧ has_selection_files o'
    ∧ events o'
      = events o ++ [RTS_START_EVENT +:+ "_" +:+ name_or_default config;
                     RTS_END_EVENT +:+ "_" +:+ name_or_default config].
Proof.
  unfold _run_rts, io_bind at 1 2, log_event at 1, try_except.
  set (o1 := mkOutDir (files o) _).
  destruct (run_rts_body_result format_test_list CppFileLevelRTS
              CppFunctionLevelRTS seed_included seed_excluded opts config o1)
    as [(o2 & -> & Hf & Hev)|(e & ->)].
  - eexists. split; [reflexivity|]. simpl. split; [done|].
    rewrite Hev. simpl. by rewrite <- app_assoc.
  - destruct (retest_all_fallback_result selection_failure e o1)
      as (o2 & -> & Hf & Hev).
    eexists. split; [reflexivity|]. simpl.
    split; [by eapply retest_all_has_selection_files|].
    rewrite Hev. simpl. by rewrite <- app_assoc.
Qed.

(** X12: the command [syscalls] lets the error of making the algorithm
    through, after the start event and without writing a file.  Once the
    algorithm is made it ends normally with the three files written; the
    end event is logged when the analysis returns and is missing from the
    log when the analysis raises. *)
Theorem syscalls_completion
    (selection_failure : string)
    (format_test_list : list string → bool → string)
    (SyscallFileLevelRTS : result RTSAlgo)
    (seed_included seed_excluded : list nat)
    (opts : SelectCommonOptions) (o : OutDir) :
  (∀ e, SyscallFileLevelRTS = Raise e →
        syscalls selection_failure format_test_list SyscallFileLevelRTS
          seed_included seed_excluded opts o
        = (mkOutDir (files o) (events o ++ [RTS_START_EVENT +:+ "_syscall"]),
           Raise e))
  ∧ (∀ rts_algo, SyscallFileLevelRTS = Ok rts_algo →
       ∃ o',
         syscalls selection_failure format_test_list SyscallFileLevelRTS
           seed_included seed_excluded opts o = (o', Ok tt)
         ∧ has_selection_files o'
         ∧ ((∃ sel, select_tests rts_algo (from_revision opts)
                      (to_revision opts) = Ok sel) →
            events o' = events o ++ [RTS_START_EVENT +:+ "_syscall";
                                     RTS_END_EVENT +:+ "_syscall"])
         ∧ ((∃ e, select_tests rts_algo (from_revision opts)
                    (to_revision opts) = Raise e) →
            events o' = events o ++ [RTS_START_EVENT +:+ "_syscall"]
            ∧ retest_all_result selection_failure o')).
Proof.
  unfold syscalls, io_bind, log_event, try_except, lift.
  set (o1 := mkOutDir (files o) _). split.
  - by intros e ->.
  - intros rts_algo ->.
    pose proof (syscalls_body_result format_test_list seed_included
                  seed_excluded opts rts_algo o1) as Hbody.
    destruct (select_tests rts_algo (from_revision opts) (to_revision opts))
      as [sel|e].
    + destruct Hbody as (o2 & -> & Hf & Hev).
      eexists. split; [reflexivity|]. split; [done|]. split.
      * intros _. rewrite Hev. simpl. by rewrite <- app_assoc.
      * by intros [e He].
    + rewrite Hbody.
      destruct (retest_all_fallback_result selection_failure e o1)
        as (o2 & -> & Hf & Hev).
      eexists. split; [reflexivity|].
      split; [by eapply retest_all_has_selection_files|]. split.
      * by intros [sel Hsel].
      * intros _. by rewrite Hev.
Qed.

Lemma syscalls_completion_witness :
  let failing :=
    mkRTSAlgo (λ _ _, Raise (OtherException "trace file is corrupt")) in
  ∃ o',
    syscalls "SELECTION_FAILURE" (λ l _, join LF l) (Ok failing) [] []
      (mkSelectCommonOptions "old" "new" false) (mkOutDir ∅ [])
    = (o', Ok tt)
    ∧ events o' = [RTS_START_EVENT +:+ "_syscall"].
Proof.
  intros failing.
  destruct (syscalls_completion "SELECTION_FAILURE" (λ l _, join LF l)
              (Ok failing) [] [] (mkSelectCommonOptions "old" "new" false)
              (mkOutDir ∅ [])) as [_ H].
  destruct (H failing eq_refl) as (o' & Hrun & _ & _ & Hraise).
  exists o'. split; [exact Hrun|].
  destruct Hraise as [Hev _]; [eexists; reflexivity|]. exact Hev.
Defined.
(* ===================================================================== *)
(** * Further properties: lines that are no identifiers *)
(* ===================================================================== *)

Lemma split_undelimited (s : string) :
  contains "!!!" s = false → split "!!!" s = [s].
Proof.
  unfold split. induction s as [|c s IH]; [done|].
  cbn [contains split_go]. intros [Hp Hc]%orb_false_elim.
  rewrite Hp, IH by done. done.
Qed.

Lemma ctest_match_undelimited (s : string) :
  contains "!!!" s = false → ctest_match s = None.
Proof.
  intros Hc. unfold ctest_match.
  destruct (strip_prefix "*!!!" s) as [r|] eqn:Hr; [|done].
  apply strip_prefix_Some in Hr. subst s.
  change ("*!!!" +:+ r)
    with (String "*" (String "!" (String "!" (String "!" r)))) in Hc.
  cbn [contains] in Hc. apply orb_false_elim in Hc as [_ Hc].
  apply orb_false_elim in Hc as [Hc _].
  by rewrite !prefix_cons_eq, prefix_empty in Hc.
Qed.

Lemma gtest_step_undelimited (filters : list string) (line : string) :
  contains "!!!" (strip line) = false → gtest_step filters line = filters.
Proof.
  intros Hc. unfold gtest_step.
  destruct (String.eqb (strip line) ""); [done|].
  by rewrite split_undelimited.
Qed.

Lemma ctest_step_undelimited (filters : list string) (line : string) :
  contains "!!!" (strip line) = false → ctest_step filters line = filters.
Proof.
  intros Hc. unfold ctest_step.
  destruct (String.eqb (strip line) ""); [done|].
  by rewrite ctest_match_undelimited, split_undelimited.
Qed.

(** X13: lines that do not hold the delimiter [!!!] give nothing in
    either conversion, so a list of such lines gives the empty filter.
    In particular the command [filter] prints the empty filter, for both
    frameworks, for the [included.txt] that a failed selection run
    leaves (the single line [*]). *)
Theorem undelimited_lines_give_empty_filter (lines : list string) :
  Forall (λ l, contains "!!!" (strip l) = false) lines →
  _convert_gtest_filter lines = ""
  ∧ _convert_ctest_filter lines = ""
  ∧ ∀ w input_file framework,
      read_text w input_file = Some ("*" +:+ LF) →
      Commands.filter w input_file framework = Ok "".
Proof.
  intros Hall. split; [|split].
  - unfold _convert_gtest_filter.
    assert (foldl gtest_step [] lines = []) as ->; [|done].
    generalize (@nil string).
    induction Hall as [|l ls Hl _ IH]; intros acc; [done|].
    cbn [foldl]. by rewrite gtest_step_undelimited, IH.
  - unfold _convert_ctest_filter.
    assert (foldl ctest_step [] lines = []) as ->; [|done].
    generalize (@nil string).
    induction Hall as [|l ls Hl _ IH]; intros acc; [done|].
    cbn [foldl]. by rewrite ctest_step_undelimited, IH.
  - intros w input_file framework Hr. unfold Commands.filter. rewrite Hr.
    by destruct framework.
Qed.

Lemma undelimited_lines_give_empty_filter_witness :
  _convert_gtest_filter ["*" +:+ LF; "SuiteA.Case1"] = ""
  ∧ _convert_ctest_filter ["*" +:+ LF; "SuiteA.Case1"] = "".
Proof.
  destruct (undelimited_lines_give_empty_filter
              ["*" +:+ LF; "SuiteA.Case1"]) as (Hg & Hc & _).
  - repeat constructor.
  - split; [exact Hg | exact Hc].
Defined.

(* ===================================================================== *)
(** * Further properties: the command [merge] *)
(* ===================================================================== *)

Lemma merge_exclude_foldl (ls : list string) (fe : gset string) (t : string) :
  t ∈ foldl Commands.merge_exclude_step fe ls
  ↔ t ∈ fe ∨ (t ≠ "" ∧ t ∈ strip <$> ls).
Proof.
  revert fe. induction ls as [|l ls IH]; intros fe.
  - simpl. split; [by left|]. intros [?|[_ H]]; [done|].
    by apply elem_of_nil in H.
  - cbn [foldl]. rewrite IH, fmap_cons, elem_of_cons.
    unfold Commands.merge_exclude_step.
    destruct (String.eqb_spec (strip l) "") as [He|He].
    + rewrite He. intuition congruence.
    + rewrite elem_of_union, elem_of_singleton. intuition congruence.
Qed.

Lemma merge_excludes_spec (w : World) (exclude_files : list Path)
    (contents : list string) (fe : gset string) :
  Forall2 (λ f content, read_text w f = Some content)
          exclude_files contents →
  ∃ fe', Commands.merge_excludes w exclude_files fe = Ok fe'
         ∧ ∀ t, t ∈ fe' ↔ t ∈ fe ∨ (t ≠ "" ∧ t ∈ stripped_lines contents).
Proof.
  intros Hall. revert fe.
  induction Hall as [|f content fs cs Hf _ IH]; intros fe.
  - exists fe. split; [done|]. intros t. split; [by left|].
    intros [?|[_ H]]; [done|]. by apply elem_of_nil in H.
  - cbn [Commands.merge_excludes]. rewrite Hf.
    destruct (IH (foldl Commands.merge_exclude_step fe
                        (text_file_lines content))) as (fe' & -> & Hfe').
    exists fe'. split; [done|]. intros t.
    rewrite Hfe', merge_exclude_foldl. unfold stripped_lines.
    rewrite bind_cons, elem_of_app. intuition congruence.
Qed.

Lemma merge_include_stopped (ls : list string) (fe : gset string) :
  foldl Commands.merge_include_step (fe, true) ls = (fe, true).
Proof. induction ls as [|l ls IH]; [done|]. cbn [foldl]. apply IH. Qed.

Lemma merge_include_foldl (ls : list string) (fe : gset string) :
  let fe' := (foldl Commands.merge_include_step (fe, false) ls).1 in
  ("*" ∈ strip <$> ls → fe' = ∅)
  ∧ ("*" ∉ strip <$> ls →
     ∀ t, t ∈ fe' ↔ t ∈ fe ∧ (t = "" ∨ t ∉ strip <$> ls)).
Proof.
  revert fe. induction ls as [|l ls IH]; intros fe; simpl.
  - split; [by intros H%elem_of_nil|]. intros _ t. split; [|by intros []].
    intros Ht. split; [done|]. right. by intros H%elem_of_nil.
  - unfold Commands.merge_include_step at 2. cbn beta iota.
    destruct (String.eqb_spec (strip l) "*") as [He|He].
    + rewrite merge_include_stopped. simpl. split; [done|].
      intros Hn. exfalso. apply Hn. rewrite He. by left.
    + assert (∃ fe1, (if negb (String.eqb (strip l) "")
                         && bool_decide (strip l ∈ fe)
                      then (fe ∖ {[strip l]}, false) else (fe, false))
                     = (fe1, false)
                     ∧ ∀ t, t ∈ fe1 ↔ t ∈ fe ∧ (t = "" ∨ t ≠ strip l))
        as (fe1 & -> & Hfe1).
      { destruct (String.eqb_spec (strip l) "") as [He'|He']; simpl.
        - exists fe. split; [done|]. intros t. rewrite He'.
          destruct (decide (t = "")); intuition congruence.
        - case_bool_decide as Hin.
          + eexists. split; [done|]. intros t.
            rewrite elem_of_difference, elem_of_singleton.
            destruct (decide (t = "")); intuition congruence.
          + exists fe. split; [done|]. intros t. split; [|by intros []].
            intros Ht. split; [done|]. right. by intros ->. }
      destruct (IH fe1) as [IH1 IH2]. split.
      * intros [Heq|Hin]%elem_of_cons; [done|]. by apply IH1.
      * intros Hn t. rewrite not_elem_of_cons in Hn. destruct Hn as [_ Hn].
        rewrite (IH2 Hn), Hfe1, not_elem_of_cons. intuition congruence.
Qed.

Lemma merge_includes_spec (w : World) (include_files : list Path)
    (contents : list string) (fe : gset string) :
  Forall2 (λ f content, read_text w f = Some content)
          include_files contents →
  ∃ fe', Commands.merge_includes w include_files fe = Ok fe'
         ∧ (fe = ∅ → fe' = ∅)
         ∧ ("*" ∈ stripped_lines contents → fe' = ∅)
         ∧ ("*" ∉ stripped_lines contents →
            ∀ t, t ∈ fe' ↔ t ∈ fe ∧ (t = "" ∨ t ∉ stripped_lines contents)).
Proof.
  intros Hall. revert fe.
  induction Hall as [|f content fs cs Hf _ IH]; intros fe.
  - exists fe. split; [done|]. split; [done|].
    split; [by intros H%elem_of_nil|]. intros _ t. split; [|by intros []].
    intros Ht. split; [done|]. right. by intros H%elem_of_nil.
  - cbn [Commands.merge_includes]. rewrite Hf.
    destruct (merge_include_foldl (text_file_lines content) fe) as [Hs Hn].
    destruct (IH (foldl Commands.merge_include_step (fe, false)
                        (text_file_lines content)).1)
      as (fe' & -> & Hempty & Hstar & Hnostar).
    exists fe'. split; [done|]. unfold stripped_lines.
    rewrite bind_cons. fold (stripped_lines cs). split; [|split].
    + intros ->. apply Hempty.
      destruct (decide ("*" ∈ strip <$> text_file_lines content)) as [H|H];
        [by apply Hs|].
      apply set_eq. intros t. rewrite (Hn H), !elem_of_empty. tauto.
    + intros [H|H]%elem_of_app; [|by apply Hstar].
      apply Hempty. by apply Hs.
    + intros H. rewrite not_elem_of_app in H. destruct H as [H1 H2].
      intros t. rewrite (Hnostar H2), (Hn H1), not_elem_of_app.
      intuition congruence.
Qed.

(** X14: the excludes that [merge] writes.  When a line of an includes
    file is [*] (white space around it apart), nothing is excluded.
    Otherwise a test is excluded exactly when it is a non-empty line of
    an excludes file and no line of any includes file.  The written text
    is the excluded tests joined by line feeds. *)
Theorem merge_result
    (w : World) (seed : list nat) (include_files exclude_files : list Path)
    (included excluded : list string) (o : OutDir) :
  Forall2 (λ f content, read_text w f = Some content)
          exclude_files excluded →
  Forall2 (λ f content, read_text w f = Some content)
          include_files included →
  ∃ final_excludes,
    Commands.merge_final_excludes w include_files exclude_files
    = Ok final_excludes
    ∧ ("*" ∈ stripped_lines included → final_excludes = ∅)
    ∧ ("*" ∉ stripped_lines included →
       ∀ t, t ∈ final_excludes
            ↔ t ≠ "" ∧ t ∈ stripped_lines excluded
              ∧ t ∉ stripped_lines included)
    ∧ Commands.merge w seed include_files exclude_files o
      = (mkOutDir
           (<[EXCLUDED_TESTS_FILE :=
                Text (join LF (set_order seed (elements final_excludes)))]>
              (files o))
           (events o),
         Ok tt).
Proof.
  intros Hex Hin.
  destruct (merge_excludes_spec w exclude_files excluded ∅ Hex)
    as (fe & Hfe & Hmem).
  destruct (merge_includes_spec w include_files included fe Hin)
    as (fe' & Hfe' & _ & Hstar & Hnostar).
  exists fe'.
  assert (Commands.merge_final_excludes w include_files exclude_files
          = Ok fe') as Hfinal.
  { unfold Commands.merge_final_excludes. rewrite Hfe. simpl. done. }
  split; [done|]. split; [done|]. split.
  - intros Hn t. rewrite (Hnostar Hn), Hmem, elem_of_empty.
    intuition congruence.
  - unfold Commands.merge, io_bind, lift. by rewrite Hfinal.
Qed.

Lemma merge_result_witness :
  ∃ final_excludes,
    Commands.merge_final_excludes merge_world
      [Path_of "/out/b/included.txt"] [Path_of "/out/a/excluded.txt"]
    = Ok final_excludes
    ∧ "t1" ∈ final_excludes ∧ "t2" ∉ final_excludes.
Proof.
  destruct (merge_result merge_world []
              [Path_of "/out/b/included.txt"] [Path_of "/out/a/excluded.txt"]
              ["t2" +:+ LF] ["t1" +:+ LF +:+ "t2" +:+ LF] (mkOutDir ∅ []))
    as (fe & Hfe & _ & Hmem & _).
  - repeat constructor.
  - repeat constructor.
  - exists fe. split; [exact Hfe|].
    assert ("*" ∉ stripped_lines ["t2" +:+ LF]) as Hn.
    { vm_compute. intros Hin.
      repeat (apply elem_of_cons in Hin as [Hin|Hin]; [discriminate Hin|]).
      by apply elem_of_nil in Hin. }
    split.
    + apply (Hmem Hn). split; [discriminate|]. split.
      * vm_compute. apply elem_of_cons. left. reflexivity.
      * vm_compute. intros Hin.
        repeat (apply elem_of_cons in Hin as [Hin|Hin]; [discriminate Hin|]).
        by apply elem_of_nil in Hin.
    + intros Hin. apply (Hmem Hn) in Hin as (_ & _ & Hout). apply Hout.
      vm_compute. apply elem_of_cons. left. reflexivity.
Defined.

(* ===================================================================== *)
(** * Hunks in the order of the section *)
(* ===================================================================== *)

Lemma tagged_line_no_header (l : string) :
  is_hunk_line l = true → hunk_match l = None.
Proof.
  intros Hl. destruct (hunk_match l) as [x|] eqn:Hm; [|done].
  assert (startswith l "@@" = true) as Hat
    by (apply hunk_match_startswith; by eexists).
  destruct (startswith_at_not_tag l Hat) as (Hp & Hm' & Hs).
  unfold is_hunk_line in Hl. rewrite Hp, Hm', Hs in Hl. simpl in Hl.
  unfold startswith in Hat, Hl. destruct l as [|c r]; [done|].
  change (String.prefix "@@" (String c r))
    with (if ascii_dec "@" c then String.prefix "@" r else false) in Hat.
  destruct (ascii_dec "@" c) as [<-|]; [|done].
  by rewrite prefix_cons_ne in Hl.
Qed.

Lemma parse_hunks_lines_no_header (ls : list string) :
  Forall (λ l, hunk_match l = None) ls → parse_hunks_lines ls = [].
Proof.
  intros Hls. unfold parse_hunks_lines.
  assert (foldl parse_hunks_step ([], None) ls = ([], None)) as ->; [|done].
  induction Hls as [|l ls Hl _ IH]; [done|].
  cbn [foldl]. unfold parse_hunks_step at 2. by rewrite Hl.
Qed.

Lemma filter_all_tagged (ls : list string) :
  Forall (λ l, is_hunk_line l) ls → filter (λ l, is_hunk_line l) ls = ls.
Proof.
  induction 1 as [|l ls Hl _ IH]; [done|]. rewrite filter_cons.
  destruct (decide (is_hunk_line l)); [by f_equal|done].
Qed.

Lemma parse_hunks_blocks (hs : list (string * Hunk)) :
  Forall written_hunk hs → parse_hunks_lines (hunk_blocks hs) = hs.*2.
Proof.
  induction 1 as [|[hdr h] hs [Hhdr Hlines] Hhs IH]; [done|].
  simpl in Hhdr, Hlines.
  change (hunk_blocks ((hdr, h) :: hs))
    with ([] ++ hdr :: lines h ++ hunk_blocks hs).
  rewrite (parse_hunks_collects _ _ _ _ _ _ _ _ Hhdr).
  - rewrite IH. simpl. f_equal.
    rewrite filter_all_tagged by done. by destruct h.
  - eapply Forall_impl; [exact Hlines|]. simpl. intros l Hl.
    apply tagged_line_no_header. by destruct (is_hunk_line l).
  - destruct Hhs as [|[hdr' h'] hs' [Hhdr' _] _]; [by left|].
    right. exists hdr', (lines h' ++ hunk_blocks hs'). split; [done|].
    simpl in Hhdr'. by rewrite Hhdr'.
Qed.

Lemma parse_hunks_written (diff_section : string) (pre : list string)
    (hs : list (string * Hunk)) :
  splitlines diff_section = pre ++ hunk_blocks hs →
  Forall (λ l, hunk_match l = None) pre →
  Forall written_hunk hs →
  _parse_hunks diff_section = hs.*2.
Proof.
  intros Hsplit Hpre Hhs. unfold _parse_hunks. rewrite Hsplit.
  destruct Hhs as [|[hdr h] hs Hh Hhs].
  - change (hunk_blocks []) with (@nil string). rewrite app_nil_r.
    by apply parse_hunks_lines_no_header.
  - change (hunk_blocks ((hdr, h) :: hs))
      with (hdr :: (lines h ++ hunk_blocks hs)).
    rewrite parse_hunks_lines_app_header
      by (destruct Hh as [Hh _]; simpl in Hh; by rewrite Hh).
    rewrite parse_hunks_lines_no_header by done.
    change (hdr :: (lines h ++ hunk_blocks hs))
      with (hunk_blocks ((hdr, h) :: hs)).
    rewrite parse_hunks_blocks; [done|by constructor].
Qed.

(** X15: the hunks of a section are the hunks that it writes, in the
    order in which it writes them, and they are applied from the last one
    written to the first, both ways.  Forward application of a hunk whose
    old start is at least 1 puts its context and [+] lines in place of the
    lines [old_start-1, old_start-1+old_count) of the buffer; reverse
    application of a hunk whose new start is at least 1 puts its context
    and [-] lines in place of the lines
    [new_start-1, new_start-1+new_count). *)
Theorem written_hunks_applied_last_to_first
    (c : DiffFileClient) (fp diff_section content : string)
    (pre : list string) (hs : list (string * Hunk)) :
  _file_diffs c !! fp = Some diff_section →
  splitlines diff_section = pre ++ hunk_blocks hs →
  Forall (λ l, hunk_match l = None) pre →
  Forall written_hunk hs →
  _parse_hunks diff_section = hs.*2
  ∧ _forward_apply_diff c fp content
    = join LF (foldr (λ hk acc, _forward_apply_hunk acc hk)
                     (splitlines content) hs.*2)
  ∧ _reverse_apply_diff c fp content
    = join LF (foldr (λ hk acc, _reverse_apply_hunk acc hk)
                     (splitlines content) hs.*2)
  ∧ (∀ h buffer, h ∈ hs.*2 → 1 ≤ old_start h →
       _forward_apply_hunk buffer h
       = spec_splice buffer (old_start h - 1)
                     (old_start h - 1 + old_count h) (spec_forward_span h))
  ∧ (∀ h buffer, h ∈ hs.*2 → 1 ≤ new_start h →
       _reverse_apply_hunk buffer h
       = spec_splice buffer (new_start h - 1)
                     (new_start h - 1 + new_count h) (spec_reverse_span h)).
Proof.
  intros Hfd Hsplit Hpre Hhs.
  pose proof (parse_hunks_written _ _ _ Hsplit Hpre Hhs) as Hparse.
  assert (∀ h, h ∈ hs.*2 → 0 ≤ old_count h ∧ 0 ≤ new_count h) as Hcount.
  { intros h ([hdr h'] & -> & Hin)%list_elem_of_fmap.
    rewrite Forall_forall in Hhs. destruct (Hhs _ Hin) as [Hm _].
    simpl in Hm. apply hunk_match_nonneg in Hm. simpl. lia. }
  split; [done|]. split; [|split; [|split]].
  - unfold _forward_apply_diff. rewrite Hfd, Hparse.
    by rewrite forward_apply_hunks_foldr.
  - unfold _reverse_apply_diff. rewrite Hfd, Hparse.
    by rewrite reverse_apply_hunks_foldr.
  - intros h buffer Hin Hs. apply forward_apply_hunk_splice; [done|].
    by apply Hcount.
  - intros h buffer Hin Hs. apply reverse_apply_hunk_splice; [done|].
    by apply Hcount.
Qed.

Lemma written_hunks_applied_last_to_first_witness :
  _parse_hunks growing_section
  = [mkHunk 1 1 1 3 ["-a"; "+a1"; "+a2"; "+a3"];
     mkHunk 4 2 6 1 ["-d"; "-e"; "+z"]]
  ∧ _forward_apply_diff growing_client "g"
      ("a" +:+ LF +:+ "b" +:+ LF +:+ "c" +:+ LF +:+ "d" +:+ LF +:+ "e")
    = "a1" +:+ LF +:+ "a2" +:+ LF +:+ "a3" +:+ LF +:+ "b" +:+ LF +:+ "c"
      +:+ LF +:+ "z"
  ∧ _forward_apply_hunk
      (_forward_apply_hunk ["a"; "b"; "c"; "d"; "e"]
         (mkHunk 1 1 1 3 ["-a"; "+a1"; "+a2"; "+a3"]))
      (mkHunk 4 2 6 1 ["-d"; "-e"; "+z"])
    = ["a1"; "a2"; "a3"; "z"; "d"; "e"]
  ∧ _reverse_apply_diff growing_client "g"
      ("a1" +:+ LF +:+ "a2" +:+ LF +:+ "a3" +:+ LF +:+ "b" +:+ LF +:+ "c"
       +:+ LF +:+ "z")
    = "a" +:+ LF +:+ "b" +:+ LF +:+ "c" +:+ LF +:+ "d" +:+ LF +:+ "e"
  ∧ _forward_apply_hunk ["a"; "b"; "c"; "d"; "e"]
      (mkHunk 4 2 6 1 ["-d"; "-e"; "+z"])
    = ["a"; "b"; "c"; "z"].
Proof.
  destruct (written_hunks_applied_last_to_first growing_client "g"
              growing_section
              ("a" +:+ LF +:+ "b" +:+ LF +:+ "c" +:+ LF +:+ "d" +:+ LF +:+ "e")
              ["diff --git a/g b/g"; "--- a/g"; "+++ b/g"]
              [("@@ -1,1 +1,3 @@", mkHunk 1 1 1 3 ["-a"; "+a1"; "+a2"; "+a3"]);
               ("@@ -4,2 +6,1 @@", mkHunk 4 2 6 1 ["-d"; "-e"; "+z"])])
    as (Hp & Hf & _ & Hs & _).
  - reflexivity.
  - vm_compute. reflexivity.
  - repeat constructor.
  - repeat (apply Forall_cons; split); try apply Forall_nil;
      try (split; [vm_compute; reflexivity|]);
      repeat (apply Forall_cons; split); try apply Forall_nil;
      vm_compute; exact I.
  - destruct (written_hunks_applied_last_to_first growing_client "g"
                growing_section
                ("a1" +:+ LF +:+ "a2" +:+ LF +:+ "a3" +:+ LF +:+ "b" +:+ LF
                 +:+ "c" +:+ LF +:+ "z")
                ["diff --git a/g b/g"; "--- a/g"; "+++ b/g"]
                [("@@ -1,1 +1,3 @@",
                  mkHunk 1 1 1 3 ["-a"; "+a1"; "+a2"; "+a3"]);
                 ("@@ -4,2 +6,1 @@", mkHunk 4 2 6 1 ["-d"; "-e"; "+z"])])
      as (_ & _ & Hr & _).
    + reflexivity.
    + vm_compute. reflexivity.
    + repeat constructor.
    + repeat (apply Forall_cons; split); try apply Forall_nil;
        try (split; [vm_compute; reflexivity|]);
        repeat (apply Forall_cons; split); try apply Forall_nil;
        vm_compute; exact I.
    + split; [exact Hp|]. split; [rewrite Hf; vm_compute; reflexivity|].
      split; [vm_compute; reflexivity|].
      split; [rewrite Hr; vm_compute; reflexivity|].
      rewrite Hs; [vm_compute; reflexivity| |simpl; lia].
      apply elem_of_cons. right. apply elem_of_cons. by left.
Defined.
